(** * Player controller of the dungeon shooter (src/src/player.js)

    A shallow embedding of [updatePlayer], [handleTileInteraction],
    [applyPowerUp] and [updateShieldAndCollisions], together with the
    properties of the movement controller, the tile resolver, the power-up
    applier, the collision resolver and the ability gate.

    Conventions of the embedding.
    - JavaScript numbers that the code uses as integers (grid coordinates,
      tile codes, health, charges, timers in milliseconds, the frame time)
      are [Z].  The frame delta and the orbit phase of the shield are
      IEEE doubles ([float]), with the arithmetic of the code.
    - A JavaScript array is a finite map from integer indices: reading an
      absent index yields [None] (the value [undefined]) and writing creates
      the index.  The grid is an array of rows.
    - Reading a property of [undefined] raises a [TypeError]; the scene keeps
      every mutation made before the exception.  Scene-mutating code lives
      in the monad [Js].
    - Calls into the Phaser engine are recorded in the scene: a tween that
      was added is an entry of [tweens] carrying the data captured by its
      completion callback, a floating text is an entry of [texts], a
      console message an entry of [console].
    - [scene.physics.overlap] is a parameter of the development; it sees
      the player through its world position. *)

From Stdlib Require Import ZArith Bool String List Lia PrimFloat.
From stdpp Require Import base option list gmap.

Local Open Scope Z_scope.

(** ** Constants (player.js, lines 2-9) *)

Definition MOVEMENT_COOLDOWN : Z := 200.
Definition NORMAL_SPEED : Z := 100.
Definition BOOSTED_SPEED : Z := 150.
Definition WATER_MOVEMENT_DURATION : Z := 200.
Definition NORMAL_MOVEMENT_DURATION : Z := 100.
Definition GRID_WIDTH : Z := 20.
Definition GRID_HEIGHT : Z := 12.
Definition TILE_SIZE : Z := 48.

(** ** Data model *)

(** The four rotations handed to [velocityFromRotation]:
    0, PI, -PI/2 and PI/2. *)
Inductive Rotation := Rot0 | RotPi | RotNegHalfPi | RotHalfPi.

(** [player.body.velocity], in polar form. *)
Inductive Velocity :=
| VZero
| VPolar (rot : Rotation) (speed : Z).

Record Player := mkPlayer {
  px : Z;
  py : Z;
  gridX : Z;
  gridY : Z;
  velocity : Velocity;
  shieldAngle : option float
}.

(** An engine object with a world position (an enemy, the key pickup). *)
Record Sprite := mkSprite { sx : Z; sy : Z }.

Record Enemy := mkEnemy {
  eid : nat;
  eactive : bool;
  esprite : Sprite
}.

Record PowerUpSprite := mkPowerUpSprite {
  sid : nat;
  sgridX : Z;
  sgridY : Z
}.

(** The shield image.  It is created at the player's position ([orbit] is
    [None]); once positioned on the orbit it sits at the anchor plus
    radius times (cos, sin) of the phase, which [orbit] records as the pair
    (radius, phase). *)
Record ShieldSprite := mkShieldSprite {
  anchorX : Z;
  anchorY : Z;
  orbit : option (Z * float)
}.

Record DungeonText := mkDungeonText { glyph : string; fill : string }.

Record FloatingText := mkFloatingText {
  tx : Z;
  ty : Z;
  message : string;
  lifetime : Z
}.

(** A tween added by [updatePlayer]: the target world position, the
    duration, and the cell captured by the [onComplete] closure. *)
Record Tween := mkTween {
  targetX : Z;
  targetY : Z;
  duration : Z;
  destGridX : Z;
  destGridY : Z
}.

Record Cursors := mkCursors {
  leftDown : bool;
  rightDown : bool;
  upDown : bool;
  downDown : bool
}.

Record GameState := mkGameState {
  lastMoveTime : option Z;
  speedBoostTimer : Z;
  tripleShotTimer : Z;
  slowShotTimer : Z;
  playerHealth : Z;
  shieldHP : Z;
  chargeLevel : Z;
  score : Z;
  hasKey : bool
}.

Record Scene := mkScene {
  cursors : Cursors;
  xbiteJustDown : bool;
  gameState : GameState;
  player : Player;
  dungeonGrid : option (gmap Z (gmap Z Z));
  dungeonTexts : gmap Z DungeonText;
  powerUpSprites : list PowerUpSprite;
  shieldSprite : option ShieldSprite;
  enemies : list Enemy;
  enemyProjectiles : list Sprite;
  key : option Sprite;
  tweens : list Tween;
  texts : list FloatingText;
  worldPaused : bool;
  gameOver : bool;
  console : list string
}.

(** Field updates. *)

Definition withGameState (f : GameState -> GameState) (s : Scene) : Scene :=
  mkScene (cursors s) (xbiteJustDown s) (f (gameState s)) (player s)
    (dungeonGrid s) (dungeonTexts s) (powerUpSprites s) (shieldSprite s)
    (enemies s) (enemyProjectiles s) (key s) (tweens s) (texts s)
    (worldPaused s) (gameOver s) (console s).

Definition withPlayer (f : Player -> Player) (s : Scene) : Scene :=
  mkScene (cursors s) (xbiteJustDown s) (gameState s) (f (player s))
    (dungeonGrid s) (dungeonTexts s) (powerUpSprites s) (shieldSprite s)
    (enemies s) (enemyProjectiles s) (key s) (tweens s) (texts s)
    (worldPaused s) (gameOver s) (console s).

Definition setXbiteJustDown (b : bool) (s : Scene) : Scene :=
  mkScene (cursors s) b (gameState s) (player s)
    (dungeonGrid s) (dungeonTexts s) (powerUpSprites s) (shieldSprite s)
    (enemies s) (enemyProjectiles s) (key s) (tweens s) (texts s)
    (worldPaused s) (gameOver s) (console s).

Definition setDungeonGrid (g : option (gmap Z (gmap Z Z))) (s : Scene) : Scene :=
  mkScene (cursors s) (xbiteJustDown s) (gameState s) (player s)
    g (dungeonTexts s) (powerUpSprites s) (shieldSprite s)
    (enemies s) (enemyProjectiles s) (key s) (tweens s) (texts s)
    (worldPaused s) (gameOver s) (console s).

Definition setDungeonTexts (t : gmap Z DungeonText) (s : Scene) : Scene :=
  mkScene (cursors s) (xbiteJustDown s) (gameState s) (player s)
    (dungeonGrid s) t (powerUpSprites s) (shieldSprite s)
    (enemies s) (enemyProjectiles s) (key s) (tweens s) (texts s)
    (worldPaused s) (gameOver s) (console s).

Definition setPowerUpSprites (l : list PowerUpSprite) (s : Scene) : Scene :=
  mkScene (cursors s) (xbiteJustDown s) (gameState s) (player s)
    (dungeonGrid s) (dungeonTexts s) l (shieldSprite s)
    (enemies s) (enemyProjectiles s) (key s) (tweens s) (texts s)
    (worldPaused s) (gameOver s) (console s).

Definition setShieldSprite (o : option ShieldSprite) (s : Scene) : Scene :=
  mkScene (cursors s) (xbiteJustDown s) (gameState s) (player s)
    (dungeonGrid s) (dungeonTexts s) (powerUpSprites s) o
    (enemies s) (enemyProjectiles s) (key s) (tweens s) (texts s)
    (worldPaused s) (gameOver s) (console s).

Definition setEnemies (l : list Enemy) (s : Scene) : Scene :=
  mkScene (cursors s) (xbiteJustDown s) (gameState s) (player s)
    (dungeonGrid s) (dungeonTexts s) (powerUpSprites s) (shieldSprite s)
    l (enemyProjectiles s) (key s) (tweens s) (texts s)
    (worldPaused s) (gameOver s) (console s).

Definition setEnemyProjectiles (l : list Sprite) (s : Scene) : Scene :=
  mkScene (cursors s) (xbiteJustDown s) (gameState s) (player s)
    (dungeonGrid s) (dungeonTexts s) (powerUpSprites s) (shieldSprite s)
    (enemies s) l (key s) (tweens s) (texts s)
    (worldPaused s) (gameOver s) (console s).

Definition setKey (k : option Sprite) (s : Scene) : Scene :=
  mkScene (cursors s) (xbiteJustDown s) (gameState s) (player s)
    (dungeonGrid s) (dungeonTexts s) (powerUpSprites s) (shieldSprite s)
    (enemies s) (enemyProjectiles s) k (tweens s) (texts s)
    (worldPaused s) (gameOver s) (console s).

Definition addTween (t : Tween) (s : Scene) : Scene :=
  mkScene (cursors s) (xbiteJustDown s) (gameState s) (player s)
    (dungeonGrid s) (dungeonTexts s) (powerUpSprites s) (shieldSprite s)
    (enemies s) (enemyProjectiles s) (key s) (tweens s ++ [t]) (texts s)
    (worldPaused s) (gameOver s) (console s).

Definition setTweens (l : list Tween) (s : Scene) : Scene :=
  mkScene (cursors s) (xbiteJustDown s) (gameState s) (player s)
    (dungeonGrid s) (dungeonTexts s) (powerUpSprites s) (shieldSprite s)
    (enemies s) (enemyProjectiles s) (key s) l (texts s)
    (worldPaused s) (gameOver s) (console s).

Definition addText (t : FloatingText) (s : Scene) : Scene :=
  mkScene (cursors s) (xbiteJustDown s) (gameState s) (player s)
    (dungeonGrid s) (dungeonTexts s) (powerUpSprites s) (shieldSprite s)
    (enemies s) (enemyProjectiles s) (key s) (tweens s) (texts s ++ [t])
    (worldPaused s) (gameOver s) (console s).

(** [scene.physics.world.isPaused = true; scene.gameOver = true]. *)
Definition setOver (s : Scene) : Scene :=
  mkScene (cursors s) (xbiteJustDown s) (gameState s) (player s)
    (dungeonGrid s) (dungeonTexts s) (powerUpSprites s) (shieldSprite s)
    (enemies s) (enemyProjectiles s) (key s) (tweens s) (texts s)
    true true (console s).

Definition consoleError (msg : string) (s : Scene) : Scene :=
  mkScene (cursors s) (xbiteJustDown s) (gameState s) (player s)
    (dungeonGrid s) (dungeonTexts s) (powerUpSprites s) (shieldSprite s)
    (enemies s) (enemyProjectiles s) (key s) (tweens s) (texts s)
    (worldPaused s) (gameOver s) (console s ++ [msg]).

Definition setCursors (c : Cursors) (s : Scene) : Scene :=
  mkScene c (xbiteJustDown s) (gameState s) (player s)
    (dungeonGrid s) (dungeonTexts s) (powerUpSprites s) (shieldSprite s)
    (enemies s) (enemyProjectiles s) (key s) (tweens s) (texts s)
    (worldPaused s) (gameOver s) (console s).

Definition setLastMoveTime (t : option Z) (g : GameState) : GameState :=
  mkGameState t (speedBoostTimer g) (tripleShotTimer g) (slowShotTimer g)
    (playerHealth g) (shieldHP g) (chargeLevel g) (score g) (hasKey g).

Definition setSpeedBoostTimer (t : Z) (g : GameState) : GameState :=
  mkGameState (lastMoveTime g) t (tripleShotTimer g) (slowShotTimer g)
    (playerHealth g) (shieldHP g) (chargeLevel g) (score g) (hasKey g).

Definition setTripleShotTimer (t : Z) (g : GameState) : GameState :=
  mkGameState (lastMoveTime g) (speedBoostTimer g) t (slowShotTimer g)
    (playerHealth g) (shieldHP g) (chargeLevel g) (score g) (hasKey g).

Definition setSlowShotTimer (t : Z) (g : GameState) : GameState :=
  mkGameState (lastMoveTime g) (speedBoostTimer g) (tripleShotTimer g) t
    (playerHealth g) (shieldHP g) (chargeLevel g) (score g) (hasKey g).

Definition setPlayerHealth (h : Z) (g : GameState) : GameState :=
  mkGameState (lastMoveTime g) (speedBoostTimer g) (tripleShotTimer g)
    (slowShotTimer g) h (shieldHP g) (chargeLevel g) (score g) (hasKey g).

Definition setShieldHP (n : Z) (g : GameState) : GameState :=
  mkGameState (lastMoveTime g) (speedBoostTimer g) (tripleShotTimer g)
    (slowShotTimer g) (playerHealth g) n (chargeLevel g) (score g) (hasKey g).

Definition setChargeLevel (c : Z) (g : GameState) : GameState :=
  mkGameState (lastMoveTime g) (speedBoostTimer g) (tripleShotTimer g)
    (slowShotTimer g) (playerHealth g) (shieldHP g) c (score g) (hasKey g).

Definition setScore (n : Z) (g : GameState) : GameState :=
  mkGameState (lastMoveTime g) (speedBoostTimer g) (tripleShotTimer g)
    (slowShotTimer g) (playerHealth g) (shieldHP g) (chargeLevel g) n (hasKey g).

Definition setHasKey (b : bool) (g : GameState) : GameState :=
  mkGameState (lastMoveTime g) (speedBoostTimer g) (tripleShotTimer g)
    (slowShotTimer g) (playerHealth g) (shieldHP g) (chargeLevel g) (score g) b.

Definition setVelocity (v : Velocity) (p : Player) : Player :=
  mkPlayer (px p) (py p) (gridX p) (gridY p) v (shieldAngle p).

Definition setShieldAngle (a : float) (p : Player) : Player :=
  mkPlayer (px p) (py p) (gridX p) (gridY p) (velocity p) (Some a).

(** The four assignments of the tween's completion callback. *)
Definition commitCell (x y : Z) (p : Player) : Player :=
  mkPlayer (x * TILE_SIZE) (y * TILE_SIZE) x y (velocity p) (shieldAngle p).

(** A JavaScript array literal: the elements at the indices 0, 1, ... *)
Fixpoint arrayFrom {A} (i : Z) (l : list A) : gmap Z A :=
  match l with
  | [] => ∅
  | a :: l' => <[i := a]> (arrayFrom (i + 1) l')
  end.

Definition arrayOf {A} (l : list A) : gmap Z A := arrayFrom 0 l.

(** A grid given by its rows, top row first. *)
Definition gridOf (rows : list (list Z)) : gmap Z (gmap Z Z) :=
  arrayOf (arrayOf <$> rows).

(** ** The monad of scene-mutating code that may raise *)

Inductive JsError := TypeError.

Inductive Completion (A : Type) :=
| Normal (a : A)
| Throw (e : JsError).
Arguments Normal {A} a.
Arguments Throw {A} e.

Definition Js (A : Type) : Type := Scene -> Completion A * Scene.

Definition ret {A} (a : A) : Js A := fun s => (Normal a, s).

Definition bind {A B} (m : Js A) (f : A -> Js B) : Js B :=
  fun s =>
    match m s with
    | (Normal a, s') => f a s'
    | (Throw e, s') => (Throw e, s')
    end.

Definition throw {A} (e : JsError) : Js A := fun s => (Throw e, s).
Definition gets {A} (f : Scene -> A) : Js A := fun s => (Normal (f s), s).
Definition modify (f : Scene -> Scene) : Js unit := fun s => (Normal tt, f s).

Declare Scope js_scope.
Delimit Scope js_scope with js.
Notation "x <- m ;; k" := (bind m (fun x => k))
  (at level 100, m at next level, right associativity) : js_scope.
Notation "m ;;; k" := (bind m (fun _ => k))
  (at level 100, right associativity) : js_scope.
Local Open Scope js_scope.

(** ** Tiles and the grid *)

(** [tile === c], where [tile] may be [undefined]. *)
Definition tileIs (tile : option Z) (c : Z) : bool :=
  match tile with
  | Some t => t =? c
  | None => false
  end.

(** [arr.includes(tile)]. *)
Definition includes (arr : list Z) (tile : option Z) : bool :=
  existsb (tileIs tile) arr.

(** [scene.dungeonGrid[y][x]]: a [TypeError] when the grid or the row is
    [undefined], the value [undefined] when only the column is absent. *)
Definition readTile (x y : Z) : Js (option Z) :=
  fun s =>
    match dungeonGrid s with
    | None => (Throw TypeError, s)
    | Some g =>
        match g !! y with
        | None => (Throw TypeError, s)
        | Some row => (Normal (row !! x), s)
        end
    end.

(** [dungeonGrid[y][x] = v]. *)
Definition writeTile (x y v : Z) : Js unit :=
  fun s =>
    match dungeonGrid s with
    | None => (Throw TypeError, s)
    | Some g =>
        match g !! y with
        | None => (Throw TypeError, s)
        | Some row => (Normal tt, setDungeonGrid (Some (<[y := <[x := v]> row]> g)) s)
        end
    end.

(** The closure [canMove] of [updatePlayer] (lines 74-78): the tile is
    read first, the bounds are tested afterwards. *)
Definition canMove (newX newY : Z) : Js bool :=
  tile <- readTile newX newY ;;
  let isCollidable := includes [1; 2; 7; 13; 14] tile in
  ret (negb isCollidable && (0 <=? newX) && (newX <? GRID_WIDTH)
       && (0 <=? newY) && (newY <? GRID_HEIGHT)).

(** [scene.dungeonTexts[i].setText('.').setFill('#666')]. *)
Definition clearDungeonText (i : Z) : Js unit :=
  fun s =>
    match dungeonTexts s !! i with
    | None => (Throw TypeError, s)
    | Some _ =>
        (Normal tt,
         setDungeonTexts (<[i := mkDungeonText "." "#666"]> (dungeonTexts s)) s)
    end.

(** The terminal check that follows both kinds of damage. *)
Definition checkOver : Js unit :=
  h <- gets (fun s => playerHealth (gameState s)) ;;
  if h <=? 0 then modify setOver else ret tt.

(** ** applyPowerUp (lines 188-221) *)

Definition atCell (x y : Z) (sp : PowerUpSprite) : bool :=
  (sgridX sp =? x) && (sgridY sp =? y).

Definition isNot (sprite sp : PowerUpSprite) : bool :=
  negb (Nat.eqb (sid sp) (sid sprite)).

Definition removePowerUpSprite (x y : Z) : Js unit :=
  sprites <- gets powerUpSprites ;;
  match List.find (atCell x y) sprites with
  | Some sprite => modify (setPowerUpSprites (List.filter (isNot sprite) sprites))
  | None => ret tt
  end.

Definition ensureShieldSprite (s : Scene) : Scene :=
  match shieldSprite s with
  | Some _ => s
  | None =>
      setShieldSprite (Some (mkShieldSprite (px (player s)) (py (player s)) None)) s
  end.

Definition applyPowerUp (tile x y : Z) : Js unit :=
  writeTile x y 0 ;;;
  clearDungeonText (y * GRID_WIDTH + x) ;;;
  removePowerUpSprite x y ;;;
  if tile =? 19 then
    modify (withGameState (setShieldHP 3)) ;;;
    modify ensureShieldSprite
  else if tile =? 20 then
    modify (withGameState (setTripleShotTimer 30000))
  else if tile =? 21 then
    modify (withGameState (setSpeedBoostTimer 30000))
  else if tile =? 22 then
    modify (withGameState (setSlowShotTimer 30000))
  else if tile =? 23 then
    modify (withGameState (fun g => setPlayerHealth (Z.min (playerHealth g + 25) 100) g)) ;;;
    p <- gets player ;;
    modify (addText (mkFloatingText (px p) (py p - 20) "+25 HP!" 500))
  else ret tt.

(** ** handleTileInteraction (lines 158-179) *)

Definition isPowerUp (tile : option Z) : option Z :=
  match tile with
  | Some t => if (19 <=? t) && (t <=? 23) then Some t else None
  | None => None
  end.

Definition handleTileInteraction (x y : Z) : Js unit :=
  tile <- readTile x y ;;
  if tileIs tile 5 || tileIs tile 8 then
    modify (withGameState (fun g => setPlayerHealth (playerHealth g - 20) g)) ;;;
    p <- gets player ;;
    modify (addText (mkFloatingText (px p) (py p - 20) "-20 HP!" 500)) ;;;
    checkOver
  else if tileIs tile 6 then
    modify (withGameState (fun g => setScore (score g + 50) g)) ;;;
    writeTile x y 0 ;;;
    clearDungeonText (y * GRID_WIDTH + x) ;;;
    p <- gets player ;;
    modify (addText (mkFloatingText (px p) (py p - 20) "+50 Score!" 500))
  else
    match isPowerUp tile with
    | Some t => applyPowerUp t x y
    | None => ret tt
    end.

(** The [onComplete] callback of the movement tween (lines 128-134),
    for the cell its closure captured. *)
Definition onComplete (newGridX newGridY : Z) : Js unit :=
  modify (withPlayer (commitCell newGridX newGridY)) ;;;
  handleTileInteraction newGridX newGridY.

(** The engine finishing the oldest pending tween: the tween leaves the
    tween manager and its callback runs. *)
Definition completeTween : Js unit :=
  tws <- gets tweens ;;
  match tws with
  | [] => ret tt
  | tw :: rest =>
      modify (setTweens rest) ;;;
      onComplete (destGridX tw) (destGridY tw)
  end.

Section Core.

(** [scene.physics.overlap(player, object)] of the physics engine, as a
    function of the player's world position and of the other object. *)
Variable overlap : Z -> Z -> Sprite -> bool.

Definition playerOverlaps (p : Player) (o : Sprite) : bool :=
  overlap (px p) (py p) o.

(** ** updateShieldAndCollisions (lines 228-272) *)

(** [player.shieldAngle || 0]: 0 for [undefined], for a NaN and for a
    zero of either sign. *)
Definition orZero (a : option float) : float :=
  match a with
  | None => 0%float
  | Some v => if (PrimFloat.is_nan v || PrimFloat.is_zero v)%bool then 0%float else v
  end.

(** The constant [angleSpeed] of line 236, the double of the literal 0.005. *)
#[warnings="-inexact-float"]
Definition angleSpeed : float := 0.005%float.

(** Lines 231-243: the orbiting shield image. *)
Definition shieldVisual (delta : float) (s : Scene) : Scene :=
  if 0 <? shieldHP (gameState s) then
    let s1 := ensureShieldSprite s in
    let angle := (orZero (shieldAngle (player s1)) + angleSpeed * delta)%float in
    let s2 := withPlayer (setShieldAngle angle) s1 in
    setShieldSprite
      (Some (mkShieldSprite (px (player s2)) (py (player s2)) (Some (30, angle)))) s2
  else
    match shieldSprite s with
    | Some _ => setShieldSprite None s
    | None => s
    end.

(** [enemy.destroy()]: the enemy leaves the group. *)
Definition destroyEnemy (e : Enemy) (s : Scene) : Scene :=
  setEnemies (List.filter (fun e' => negb (Nat.eqb (eid e') (eid e))) (enemies s)) s.

Definition hits (s : Scene) (e : Enemy) : bool :=
  eactive e && playerOverlaps (player s) (esprite e).

(** Lines 246-262: the callback run for one enemy of the group. *)
Definition resolveEnemy (s : Scene) (enemy : Enemy) : Scene :=
  if hits s enemy then
    if 0 <? shieldHP (gameState s) then
      let s1 := withGameState (fun g => setShieldHP (shieldHP g - 1) g) s in
      let s2 := destroyEnemy enemy s1 in
      if (shieldHP (gameState s2) =? 0) && bool_decide (is_Some (shieldSprite s2))
      then setShieldSprite None s2
      else s2
    else
      let s1 := destroyEnemy enemy s in
      let s2 := withGameState (fun g => setPlayerHealth (playerHealth g - 10) g) s1 in
      if playerHealth (gameState s2) <=? 0 then setOver s2 else s2
  else s.

(** [scene.enemies.children.each(...)]: the callback runs over the
    children the group had when the iteration started. *)
Definition resolveCollisions (s : Scene) : Scene :=
  fold_left resolveEnemy (enemies s) s.

(** [Phaser.Input.Keyboard.JustDown(key)]: reports a press once and
    clears the key's latch. *)
Definition JustDown (s : Scene) : bool * Scene :=
  (xbiteJustDown s, setXbiteJustDown false s).

(** Lines 265-271: the charge-gated clear. *)
Definition abilityGate (s : Scene) : Scene :=
  let (pressed, s1) := JustDown s in
  if pressed && (1000 <=? chargeLevel (gameState s1)) then
    let s2 := setEnemies [] s1 in
    let s3 := setEnemyProjectiles [] s2 in
    let s4 := withGameState (setChargeLevel 0) s3 in
    addText (mkFloatingText (GRID_WIDTH * TILE_SIZE / 2) (GRID_HEIGHT * TILE_SIZE / 2)
               "XBITE NUKE!" 1500) s4
  else s1.

Definition updateShieldAndCollisions (delta : float) (s : Scene) : Scene :=
  abilityGate (resolveCollisions (shieldVisual delta s)).

(** ** updatePlayer (lines 63-150) *)

(** The local variables [moved], [newGridX], [newGridY]. *)
Record Locals := mkLocals {
  moved : bool;
  newGridX : Z;
  newGridY : Z
}.

Definition setPlayerVelocity (v : Velocity) : Js unit :=
  modify (withPlayer (setVelocity v)).

(** Lines 86-99: the push of a wind tile under the player. *)
Definition windPush (l : Locals) : Js Locals :=
  p <- gets player ;;
  currentTile <- readTile (gridX p) (gridY p) ;;
  if tileIs currentTile 9 then
    ok <- canMove (gridX p + 1) (gridY p) ;;
    if ok then
      setPlayerVelocity (VPolar Rot0 50) ;;;
      ret (mkLocals true (gridX p + 1) (newGridY l))
    else ret l
  else if tileIs currentTile 10 then
    ok <- canMove (gridX p - 1) (gridY p) ;;
    if ok then
      setPlayerVelocity (VPolar RotPi 50) ;;;
      ret (mkLocals true (gridX p - 1) (newGridY l))
    else ret l
  else ret l.

(** [cursors.k.isDown && canMove(x, y)]: [canMove] runs only when the
    key is held. *)
Definition heldAndCanMove (held : bool) (x y : Z) : Js bool :=
  if held then canMove x y else ret false.

(** Lines 101-118: the directional input, in the order left, right, up,
    down. *)
Definition directionalInput (l : Locals) : Js Locals :=
  p <- gets player ;;
  c <- gets cursors ;;
  sb <- gets (fun s => speedBoostTimer (gameState s)) ;;
  let speed := if 0 <? sb then BOOSTED_SPEED else NORMAL_SPEED in
  goLeft <- heldAndCanMove (leftDown c) (gridX p - 1) (gridY p) ;;
  if goLeft then
    setPlayerVelocity (VPolar RotPi speed) ;;;
    ret (mkLocals true (newGridX l - 1) (newGridY l))
  else
  goRight <- heldAndCanMove (rightDown c) (gridX p + 1) (gridY p) ;;
  if goRight then
    setPlayerVelocity (VPolar Rot0 speed) ;;;
    ret (mkLocals true (newGridX l + 1) (newGridY l))
  else
  goUp <- heldAndCanMove (upDown c) (gridX p) (gridY p - 1) ;;
  if goUp then
    setPlayerVelocity (VPolar RotNegHalfPi speed) ;;;
    ret (mkLocals true (newGridX l) (newGridY l - 1))
  else
  goDown <- heldAndCanMove (downDown c) (gridX p) (gridY p + 1) ;;
  if goDown then
    setPlayerVelocity (VPolar RotHalfPi speed) ;;;
    ret (mkLocals true (newGridX l) (newGridY l + 1))
  else ret l.

(** Lines 120-137: the tween towards the selected cell. *)
Definition startTween (time : Z) (l : Locals) : Js unit :=
  if moved l then
    tile <- readTile (newGridX l) (newGridY l) ;;
    let duration :=
      if tileIs tile 12 then WATER_MOVEMENT_DURATION else NORMAL_MOVEMENT_DURATION in
    modify (addTween (mkTween (newGridX l * TILE_SIZE) (newGridY l * TILE_SIZE)
                        duration (newGridX l) (newGridY l))) ;;;
    modify (withGameState (setLastMoveTime (Some time)))
  else ret tt.

(** Lines 140-146: the key pickup. *)
Definition keyPickup (s : Scene) : Scene :=
  match key s with
  | Some k =>
      if playerOverlaps (player s) k then
        let s1 := withGameState (setHasKey true) s in
        let s2 := setKey None s1 in
        addText (mkFloatingText (GRID_WIDTH * TILE_SIZE / 2) (GRID_HEIGHT * TILE_SIZE / 2)
                   "KEY GET!" 1000) s2
      else s
  | None => s
  end.

(** Lines 80-137: the movement controller proper. *)
Definition movement (time : Z) : Js unit :=
  p <- gets player ;;
  let l0 := mkLocals false (gridX p) (gridY p) in
  setPlayerVelocity VZero ;;;
  l1 <- windPush l0 ;;
  l2 <- directionalInput l1 ;;
  startTween time l2.

Definition initLastMoveTime (g : GameState) : GameState :=
  match lastMoveTime g with
  | None => setLastMoveTime (Some 0) g
  | Some _ => g
  end.

Definition onCooldown (time : Z) (s : Scene) : bool :=
  time - default 0 (lastMoveTime (gameState s)) <? MOVEMENT_COOLDOWN.

Definition updatePlayer (time : Z) (delta : float) : Js unit :=
  modify (withGameState initLastMoveTime) ;;;
  cooling <- gets (onCooldown time) ;;
  if cooling then ret tt
  else
    grid <- gets dungeonGrid ;;
    match grid with
    | None => modify (consoleError "dungeonGrid is undefined in updatePlayer")
    | Some _ =>
        movement time ;;;
        modify keyPickup ;;;
        modify (updateShieldAndCollisions delta)
    end.

End Core.

(** ** setupPlayer (lines 16-21) and sample scenes *)

Definition setupPlayer : Player :=
  mkPlayer (GRID_WIDTH / 2 * TILE_SIZE) (GRID_HEIGHT / 2 * TILE_SIZE)
    (GRID_WIDTH / 2) (GRID_HEIGHT / 2) VZero None.

Definition noInput : Cursors := mkCursors false false false false.
Definition holdLeft : Cursors := mkCursors true false false false.
Definition holdRight : Cursors := mkCursors false true false false.
Definition holdUp : Cursors := mkCursors false false true false.

Definition freshGameState : GameState :=
  mkGameState None 0 0 0 100 0 0 0 false.

Definition blankTexts : gmap Z DungeonText :=
  arrayOf (replicate 240 (mkDungeonText "?" "#FFF")).

(** A scene right after setup, in the room with the given rows. *)
Definition sceneIn (rows : list (list Z)) : Scene :=
  mkScene noInput false freshGameState setupPlayer (Some (gridOf rows))
    blankTexts [] None [] [] None [] [] false false [].

Definition floorRow : list Z := replicate 20 0.
Definition openRoom : list (list Z) := replicate 12 floorRow.

(** Row 6 of the corridor room: floor up to column 10, a wind tile blowing
    right at column 11, floor at column 12, a wall at column 13. *)
Definition corridorRow : list Z :=
  replicate 11 0 ++ [9; 0; 1] ++ replicate 6 0.
Definition corridorRoom : list (list Z) :=
  replicate 6 floorRow ++ [corridorRow] ++ replicate 5 floorRow.

(** Row 6 of the hazard room: a spike right of the start cell. *)
Definition spikeRow : list Z := replicate 11 0 ++ [5] ++ replicate 8 0.
Definition spikeRoom : list (list Z) :=
  replicate 6 floorRow ++ [spikeRow] ++ replicate 5 floorRow.

(** Two sprites overlap when their positions are less than a tile apart. *)
Definition nearby (x y : Z) (o : Sprite) : bool :=
  (Z.abs (x - sx o) <? TILE_SIZE) && (Z.abs (y - sy o) <? TILE_SIZE).

Definition enemyAt (i : nat) (x y : Z) : Enemy := mkEnemy i true (mkSprite x y).

(** ** Notions used by the statements *)

(** From a scene satisfying [P], [m] leads to a scene satisfying [Q],
    whether it completes or raises. *)
Definition hoare {A} (P : Scene -> Prop) (m : Js A) (Q : Scene -> Prop) : Prop :=
  forall s, P s -> Q (snd (m s)).

Definition preserves {A} (P : Scene -> Prop) (m : Js A) : Prop := hoare P m P.

(** The tweens that a step from [s] to [s'] added to the tween manager. *)
Definition initiated (s s' : Scene) : list Tween :=
  drop (length (tweens s)) (tweens s').

(** The scene with the player standing on the given cell. *)
Definition standingAt (x y : Z) (c : Cursors) (rows : list (list Z)) : Scene :=
  setCursors c (withPlayer (commitCell x y) (sceneIn rows)).

(** The two halves of the passability predicate. *)
Definition inBounds (x y : Z) : bool :=
  (0 <=? x) && (x <? GRID_WIDTH) && (0 <=? y) && (y <? GRID_HEIGHT).

Definition collidable (tile : option Z) : bool := includes [1; 2; 7; 13; 14] tile.

(** What [readTile] and [canMove] compute, as functions of the grid. *)
Definition tileAt (grid : option (gmap Z (gmap Z Z))) (x y : Z) : Completion (option Z) :=
  match grid with
  | None => Throw TypeError
  | Some g =>
      match g !! y with
      | None => Throw TypeError
      | Some row => Normal (row !! x)
      end
  end.

Definition passable (grid : option (gmap Z (gmap Z Z))) (x y : Z) : Completion bool :=
  match tileAt grid x y with
  | Normal tile => Normal (negb (collidable tile) && inBounds x y)
  | Throw e => Throw e
  end.

(** A predicate that does not look at the player's velocity, the only part
    of the scene the movement stages write before the tween starts. *)
Definition velocityBlind (P : Scene -> Prop) : Prop :=
  forall s v, P s -> P (withPlayer (setVelocity v) s).

(** A predicate on the scene that does not look at the parts the shield and
    collision resolver writes. *)
Record resolverBlind (P : Scene -> Prop) : Prop := {
  rb_gameState_shield : forall s n, P s -> P (withGameState (setShieldHP n) s);
  rb_gameState_health : forall s h, P s -> P (withGameState (setPlayerHealth h) s);
  rb_gameState_charge : forall s c, P s -> P (withGameState (setChargeLevel c) s);
  rb_player : forall s a, P s -> P (withPlayer (setShieldAngle a) s);
  rb_shieldSprite : forall s o, P s -> P (setShieldSprite o s);
  rb_enemies : forall s l, P s -> P (setEnemies l s);
  rb_projectiles : forall s l, P s -> P (setEnemyProjectiles l s);
  rb_text : forall s t, P s -> P (addText t s);
  rb_over : forall s, P s -> P (setOver s);
  rb_latch : forall s b, P s -> P (setXbiteJustDown b s)
}.

(** A predicate that does not look at the parts the key pickup writes. *)
Record pickupBlind (P : Scene -> Prop) : Prop := {
  pb_hasKey : forall s b, P s -> P (withGameState (setHasKey b) s);
  pb_key : forall s k, P s -> P (setKey k s);
  pb_text : forall s t, P s -> P (addText t s)
}.

(** The tween list is [T] and the time of the last move is [L]. *)
Definition movesAre (T : list Tween) (L : option Z) (s : Scene) : Prop :=
  tweens s = T /\ lastMoveTime (gameState s) = L.

(** A stage either leaves the tweens and the time of the last move alone,
    or adds one tween and stamps the time of the frame. *)
Definition oneMoveAt (time : Z) (T : list Tween) (L : option Z) (s : Scene) : Prop :=
  movesAre T L s \/ exists tw, movesAre (T ++ [tw]) (Some time) s.

(** No enemy with the identity of [e] is left in the group. *)
Definition gone (e : Enemy) (s : Scene) : Prop :=
  forall e', e' ∈ enemies s -> eid e' <> eid e.

(** What can be observed of a frame from [s] to [s'] in which the collision
    resolver and the ability gate ran: every enemy that was active and
    overlapping the player has been destroyed, and the latch of the ability
    key has been consumed. *)
Definition resolverAndGateRan (overlap : Z -> Z -> Sprite -> bool) (s s' : Scene) : Prop :=
  (forall e, e ∈ enemies s -> hits overlap s e = true -> gone e s')
  /\ xbiteJustDown s' = false.

(** A scene with one enemy standing on the player, a pressed ability key and
    a full charge. *)
Definition ambush (lastMove : Z) (grid : option (gmap Z (gmap Z Z))) : Scene :=
  mkScene noInput true
    (mkGameState (Some lastMove) 0 0 0 100 0 1000 0 false)
    setupPlayer grid blankTexts [] None
    [enemyAt 1 480 288] [mkSprite 100 100] None [] [] false false [].

(** A predicate that looks neither at the player's velocity, nor at the
    tweens, nor at the time of the last move: the parts the movement
    controller writes. *)
Record movementBlind (P : Scene -> Prop) : Prop := {
  mb_velocity : velocityBlind P;
  mb_tween : forall s tw, P s -> P (addTween tw s);
  mb_lastMove : forall s t, P s -> P (withGameState (setLastMoveTime t) s)
}.

(** The enemy group and the player's world position of [s0]. *)
Definition sameFight (s0 s : Scene) : Prop :=
  enemies s = enemies s0
  /\ px (player s) = px (player s0) /\ py (player s) = py (player s0).

(** A predicate that looks at none of the parts the tile resolver and the
    power-up applier write, except that it may depend on the over-state,
    which they only ever set. *)
Record tileBlind (P : Scene -> Prop) : Prop := {
  tb_gameState : forall s f, P s -> P (withGameState f s);
  tb_player : forall s f, P s -> P (withPlayer f s);
  tb_grid : forall s g, P s -> P (setDungeonGrid g s);
  tb_texts : forall s t, P s -> P (setDungeonTexts t s);
  tb_sprites : forall s l, P s -> P (setPowerUpSprites l s);
  tb_shieldSprite : forall s o, P s -> P (setShieldSprite o s);
  tb_tweens : forall s l, P s -> P (setTweens l s);
  tb_text : forall s t, P s -> P (addText t s);
  tb_over : forall s, P s -> P (setOver s)
}.

(** The terminal over-state. *)
Definition isOver (s : Scene) : Prop := gameOver s = true.

(** The spec's hazard scenario: the player starts at (10,6) with the given
    health, a spike lies at (11,6) and the right key is held; the first
    frame starts the tween, whose completion is the arrival on the spike. *)
Definition spikeStart (health : Z) : Scene :=
  setCursors holdRight (withGameState (setPlayerHealth health) (sceneIn spikeRoom)).

Definition spikeArrival (health : Z) : Scene :=
  snd (completeTween (snd (updatePlayer nearby 200 16 (spikeStart health)))).

(** The stored health is at most 100, and the over-state is set whenever it
    is not positive. *)
Definition healthy (s : Scene) : Prop :=
  playerHealth (gameState s) <= 100
  /\ (playerHealth (gameState s) <= 0 -> gameOver s = true).

(** The cell (x, y) can be cleared: its row exists in the grid and its text
    exists in the overlay. *)
Definition cellReady (x y : Z) (s : Scene) : Prop :=
  (exists g row, dungeonGrid s = Some g /\ g !! y = Some row)
  /\ is_Some (dungeonTexts s !! (y * GRID_WIDTH + x)).



(** A scene with the given shield charge and ability charge, the ability
    key pressed, three enemies on the player and one projectile. *)
Definition melee (shield charge : Z) : Scene :=
  mkScene noInput true
    (mkGameState (Some 0) 0 0 0 100 shield charge 0 false)
    setupPlayer (Some (gridOf openRoom)) blankTexts [] None
    [enemyAt 1 480 288; enemyAt 2 490 288; enemyAt 3 480 300]
    [mkSprite 100 100] None [] [] false false [].

(** ** Notions used by the further properties *)

(** The cell a tween leads to. *)
Definition dest (tw : Tween) : Z * Z := (destGridX tw, destGridY tw).

(** The scene an update works on once [lastMoveTime] is initialised. *)
Definition primed (s : Scene) : Scene := withGameState initLastMoveTime s.

(** The three rows the movement controller may read exist. *)
Definition rowsAround (s : Scene) : Prop :=
  exists g,
    dungeonGrid s = Some g
    /\ is_Some (g !! (gridY (player s) - 1))
    /\ is_Some (g !! gridY (player s))
    /\ is_Some (g !! (gridY (player s) + 1)).

(** The player does not stand on a wind tile. *)
Definition offWind (s : Scene) : Prop :=
  exists tile,
    tileAt (dungeonGrid s) (gridX (player s)) (gridY (player s)) = Normal tile
    /\ tileIs tile 9 = false /\ tileIs tile 10 = false.

(** [cursors.k.isDown && canMove(x, y)] as a function of the scene, for a
    probe that does not raise. *)
Definition saysYes (c : Completion bool) : bool :=
  match c with
  | Normal b => b
  | Throw _ => false
  end.

Definition wants (held : bool) (s : Scene) (x y : Z) : bool :=
  held && saysYes (passable (dungeonGrid s) x y).

(** The cell selected by the direction keys in the order left, right, up,
    down. *)
Definition keyedCell (s : Scene) : option (Z * Z) :=
  let c := cursors s in
  let x := gridX (player s) in
  let y := gridY (player s) in
  if wants (leftDown c) s (x - 1) y then Some (x - 1, y)
  else if wants (rightDown c) s (x + 1) y then Some (x + 1, y)
  else if wants (upDown c) s x (y - 1) then Some (x, y - 1)
  else if wants (downDown c) s x (y + 1) then Some (x, y + 1)
  else None.

(** A predicate that looks at none of the parts the tile resolver and the
    power-up applier write, the grid apart. *)
Record arrivalBlind (P : Scene -> Prop) : Prop := {
  ab_health : forall s h, P s -> P (withGameState (setPlayerHealth h) s);
  ab_score : forall s n, P s -> P (withGameState (setScore n) s);
  ab_shield : forall s n, P s -> P (withGameState (setShieldHP n) s);
  ab_triple : forall s t, P s -> P (withGameState (setTripleShotTimer t) s);
  ab_speed : forall s t, P s -> P (withGameState (setSpeedBoostTimer t) s);
  ab_slow : forall s t, P s -> P (withGameState (setSlowShotTimer t) s);
  ab_texts : forall s t, P s -> P (setDungeonTexts t s);
  ab_sprites : forall s l, P s -> P (setPowerUpSprites l s);
  ab_shieldSprite : forall s o, P s -> P (setShieldSprite o s);
  ab_text : forall s t, P s -> P (addText t s);
  ab_over : forall s, P s -> P (setOver s)
}.

(** The parts of the scene an update never writes: the player's cell and
    world position, the grid and its overlay, the pickups, the score and
    the three power-up timers. *)
Definition restingParts (s : Scene) :=
  (gridX (player s), gridY (player s), px (player s), py (player s),
   dungeonGrid s, dungeonTexts s, powerUpSprites s,
   score (gameState s), tripleShotTimer (gameState s),
   speedBoostTimer (gameState s), slowShotTimer (gameState s)).

(** The parts of the scene a tween completion never writes. *)
Definition bystanders (s : Scene) :=
  (cursors s, xbiteJustDown s, enemies s, enemyProjectiles s, key s,
   lastMoveTime (gameState s), chargeLevel (gameState s), hasKey (gameState s),
   velocity (player s), shieldAngle (player s), console s).

(** A consumable tile: the treasure or one of the five power-ups. *)
Definition consumable (t : Z) : bool :=
  (t =? 6) || ((19 <=? t) && (t <=? 23)).

(** The cell (x, y) of the grid passes the passability predicate. *)
Definition safeCell (grid : option (gmap Z (gmap Z Z))) (x y : Z) : Prop :=
  passable grid x y = Normal true.

(** No cell of the grid holds a wind tile. *)
Definition windFree (grid : option (gmap Z (gmap Z Z))) : Prop :=
  forall x y t, tileAt grid x y = Normal (Some t) -> t <> 9 /\ t <> 10.

(** The grid is present and free of wind, and the player's cell and the
    destination of every pending tween pass the passability predicate. *)
Definition onSafeGround (s : Scene) : Prop :=
  is_Some (dungeonGrid s)
  /\ windFree (dungeonGrid s)
  /\ safeCell (dungeonGrid s) (gridX (player s)) (gridY (player s))
  /\ forall tw, tw ∈ tweens s -> safeCell (dungeonGrid s) (destGridX tw) (destGridY tw).

(** A grid whose cells are those of [g0], except for cells that were
    cleared to floor. *)
Definition clearedFrom (g0 grid : option (gmap Z (gmap Z Z))) : Prop :=
  forall x y,
    tileAt grid x y = tileAt g0 x y
    \/ (tileAt grid x y = Normal (Some 0) /\ exists t, tileAt g0 x y = Normal t).

(** One event of a game session: a frame update, the completion of the
    oldest tween, or a change made by the collaborators of the controller
    (the keyboard, the enemy system, the projectile system). *)
Inductive step (overlap : Z -> Z -> Sprite -> bool) : Scene -> Scene -> Prop :=
| step_update time delta s : step overlap s (snd (updatePlayer overlap time delta s))
| step_tween s : step overlap s (snd (completeTween s))
| step_cursors c s : step overlap s (setCursors c s)
| step_press b s : step overlap s (setXbiteJustDown b s)
| step_enemies l s : step overlap s (setEnemies l s)
| step_projectiles l s : step overlap s (setEnemyProjectiles l s)
| step_charge c s : step overlap s (withGameState (setChargeLevel c) s).

(** The scenes a session can reach from [s0]. *)
Definition reachable (overlap : Z -> Z -> Sprite -> bool) (s0 s : Scene) : Prop :=
  rtc (step overlap) s0 s.

(** The number of enemies of [es] that are active and overlap the player. *)
Definition hitCount (overlap : Z -> Z -> Sprite -> bool) (s : Scene) (es : list Enemy) : Z :=
  Z.of_nat (length (List.filter (hits overlap s) es)).

(** The phase the shield reaches in a tick of [delta] milliseconds. *)
Definition nextPhase (delta : float) (s : Scene) : float :=
  (orZero (shieldAngle (player s)) + angleSpeed * delta)%float.

(** The enemy [e'] shares its identity with an enemy of [es] that is active
    and overlaps the player. *)
Definition struck (overlap : Z -> Z -> Sprite -> bool) (s : Scene) (es : list Enemy)
    (e' : Enemy) : bool :=
  existsb (fun e => hits overlap s e && Nat.eqb (eid e') (eid e)) es.

(** The shield image follows the charge as it was left by the shield stage
    [sv] of the tick: the image of [sv] while the charge is positive, none
    once it is not. *)
Definition imageFollows (sv s : Scene) : Prop :=
  player s = player sv
  /\ shieldHP (gameState s) <= shieldHP (gameState sv)
  /\ (0 < shieldHP (gameState s) -> shieldSprite s = shieldSprite sv)
  /\ (shieldHP (gameState s) <= 0 -> shieldSprite s = None).

(** The cell a wind tile pushes to: one cell to the right from tile 9, one
    cell to the left from tile 10, when that cell passes the passability
    predicate. *)
Definition windCell (s : Scene) (tile : option Z) : option (Z * Z) :=
  let x := gridX (player s) in
  let y := gridY (player s) in
  if tileIs tile 9 then
    if saysYes (passable (dungeonGrid s) (x + 1) y) then Some (x + 1, y) else None
  else if tileIs tile 10 then
    if saysYes (passable (dungeonGrid s) (x - 1) y) then Some (x - 1, y) else None
  else None.

(** What a session never undoes: the over-state, the key flag, the absence
    of a picked-up key, the score reached, and the bound of the health. *)
Definition neverUndone (s0 s : Scene) : Prop :=
  (gameOver s0 = true -> gameOver s = true)
  /\ (hasKey (gameState s0) = true -> hasKey (gameState s) = true)
  /\ (key s0 = None -> key s = None)
  /\ score (gameState s0) <= score (gameState s)
  /\ (healthy s0 -> healthy s).

(** ** Updates that get to the resolver *)

(** The update gets past the cooldown and the grid guard, and completes. *)
Definition reaches (overlap : Z -> Z -> Sprite -> bool) (time : Z) (delta : float)
    (s : Scene) : Prop :=
  onCooldown time (primed s) = false
  /\ is_Some (dungeonGrid s)
  /\ fst (updatePlayer overlap time delta s) = Normal tt.


(** The scene such an update hands to the shield and collision resolver:
    the one the movement controller and the key pickup leave. *)
Definition beforeResolver (overlap : Z -> Z -> Sprite -> bool) (time : Z) (s : Scene) : Scene :=
  keyPickup overlap (snd (movement time (primed s))).


(** The parts of [s0] the resolver reads, as the movement controller and the
    key pickup leave them. *)
Definition fightAs (s0 s : Scene) : Prop :=
  enemies s = enemies s0
  /\ px (player s) = px (player s0) /\ py (player s) = py (player s0)
  /\ shieldHP (gameState s) = shieldHP (gameState s0)
  /\ playerHealth (gameState s) = playerHealth (gameState s0)
  /\ chargeLevel (gameState s) = chargeLevel (gameState s0)
  /\ xbiteJustDown s = xbiteJustDown s0
  /\ enemyProjectiles s = enemyProjectiles s0.

(** The outcome [s'] of resolving the overlaps of [s]: with a charge N and k
    active overlapping enemies, the charge is max(N - k, 0), the health has
    lost 10 for each overlap beyond the N-th, every overlapping enemy is
    destroyed, and the shield image is gone when the charge was used up. *)
Definition absorbed (overlap : Z -> Z -> Sprite -> bool) (s s' : Scene) : Prop :=
  let N := shieldHP (gameState s) in
  let k := hitCount overlap s (enemies s) in
  shieldHP (gameState s') = Z.max (N - k) 0
  /\ playerHealth (gameState s') = playerHealth (gameState s) - 10 * Z.max (k - N) 0
  /\ (forall e, e ∈ enemies s -> hits overlap s e = true -> gone e s')
  /\ (N <= k -> shieldSprite s' = None).

(** ** Reasoning about [Js] computations *)

Lemma preserves_ret {A} (P : Scene -> Prop) (a : A) : preserves P (ret a).
Proof. intros s H. exact H. Qed.

Lemma preserves_throw {A} (P : Scene -> Prop) (e : JsError) :
  preserves P (@throw A e).
Proof. intros s H. exact H. Qed.

Lemma preserves_gets {A} (P : Scene -> Prop) (f : Scene -> A) :
  preserves P (gets f).
Proof. intros s H. exact H. Qed.

Lemma preserves_modify (P : Scene -> Prop) (f : Scene -> Scene) :
  (forall s, P s -> P (f s)) -> preserves P (modify f).
Proof. intros Hf s H. apply Hf, H. Qed.

Lemma hoare_bind {A B} (P Q : Scene -> Prop) (m : Js A) (f : A -> Js B) :
  preserves P m -> (forall s, P s -> Q s) -> (forall a, hoare P (f a) Q) ->
  hoare P (bind m f) Q.
Proof.
  intros Hm HPQ Hf s H. unfold bind.
  specialize (Hm s H). destruct (m s) as [[a | e] s']; simpl in *.
  - apply Hf, Hm.
  - apply HPQ, Hm.
Qed.

Lemma preserves_bind {A B} (P : Scene -> Prop) (m : Js A) (f : A -> Js B) :
  preserves P m -> (forall a, preserves P (f a)) -> preserves P (bind m f).
Proof. intros Hm Hf. apply hoare_bind; auto. Qed.

Lemma preserves_readTile (P : Scene -> Prop) (x y : Z) : preserves P (readTile x y).
Proof.
  intros s H. unfold readTile.
  destruct (dungeonGrid s) as [g |]; [destruct (g !! y) |]; exact H.
Qed.

Lemma preserves_canMove (P : Scene -> Prop) (x y : Z) : preserves P (canMove x y).
Proof.
  apply preserves_bind; [apply preserves_readTile | intros; apply preserves_ret].
Qed.

Lemma preserves_writeTile (P : Scene -> Prop) (x y v : Z) :
  (forall s g, P s -> P (setDungeonGrid g s)) -> preserves P (writeTile x y v).
Proof.
  intros Hg s H. unfold writeTile.
  destruct (dungeonGrid s) as [g |]; [destruct (g !! y) |]; simpl; auto.
Qed.

Lemma preserves_clearDungeonText (P : Scene -> Prop) (i : Z) :
  (forall s t, P s -> P (setDungeonTexts t s)) -> preserves P (clearDungeonText i).
Proof.
  intros Ht s H. unfold clearDungeonText.
  destruct (dungeonTexts s !! i); simpl; auto.
Qed.

(** Structural steps shared by the invariance proofs. *)
Ltac js_step :=
  first
    [ apply preserves_ret
    | apply preserves_gets
    | apply preserves_throw
    | apply preserves_readTile
    | apply preserves_canMove
    | apply preserves_bind; [| intros ?]
    | match goal with
      | |- preserves _ (if ?b then _ else _) => destruct b
      | |- preserves _ (match ?o with Some _ => _ | None => _ end) => destruct o
      | |- preserves _ (match ?l with [] => _ | _ :: _ => _ end) => destruct l
      end ].

Ltac js_steps := repeat js_step.

(** ** Arrays *)

Lemma arrayFrom_lookup {A} (l : list A) (i j : Z) :
  arrayFrom i l !! j = if i <=? j then l !! Z.to_nat (j - i) else None.
Proof.
  revert i. induction l as [| a l IH]; intros i; simpl.
  - rewrite lookup_empty. destruct (i <=? j); reflexivity.
  - destruct (decide (i = j)) as [-> | Hne].
    + rewrite lookup_insert_eq, Z.leb_refl, Z.sub_diag. reflexivity.
    + rewrite lookup_insert_ne by exact Hne. rewrite IH.
      destruct (Z.leb_spec i j) as [Hle | Hlt].
      * destruct (Z.leb_spec (i + 1) j) as [_ | Hlt']; [| lia].
        replace (Z.to_nat (j - i)) with (S (Z.to_nat (j - (i + 1)))) by lia.
        reflexivity.
      * destruct (Z.leb_spec (i + 1) j); [lia | reflexivity].
Qed.

Lemma arrayOf_lookup {A} (l : list A) (j : Z) :
  arrayOf l !! j = if 0 <=? j then l !! Z.to_nat j else None.
Proof. unfold arrayOf. rewrite arrayFrom_lookup, Z.sub_0_r. reflexivity. Qed.

Lemma gridOf_row (rows : list (list Z)) (y : Z) :
  gridOf rows !! y = if 0 <=? y then arrayOf <$> (rows !! Z.to_nat y) else None.
Proof.
  unfold gridOf. rewrite arrayOf_lookup.
  destruct (0 <=? y); [apply list_lookup_fmap | reflexivity].
Qed.

(** ** The passability predicate *)

Lemma collidable_spec (tile : option Z) :
  collidable tile = true <-> exists t, tile = Some t /\ t ∈ [1; 2; 7; 13; 14].
Proof.
  unfold collidable, includes. rewrite existsb_exists. split.
  - intros (c & Hin & Hc). destruct tile as [t |]; [| discriminate].
    simpl in Hc. apply Z.eqb_eq in Hc. subst c.
    exists t. split; [reflexivity | apply list_elem_of_In, Hin].
  - intros (t & -> & Hin). exists t. split; [apply list_elem_of_In, Hin |].
    simpl. apply Z.eqb_refl.
Qed.

(** When the row exists, [canMove] returns, and it returns [true] exactly
    for an in-bounds cell whose tile is not in the collidable set. *)
Lemma canMove_row_present (s : Scene) g row (x y : Z) :
  dungeonGrid s = Some g -> g !! y = Some row ->
  canMove x y s = (Normal (negb (collidable (row !! x)) && inBounds x y), s).
Proof.
  intros Hg Hrow. unfold canMove, bind, readTile, ret. rewrite Hg, Hrow.
  unfold inBounds, collidable. rewrite !andb_assoc. reflexivity.
Qed.

(** When the row does not exist, [canMove] raises. *)
Lemma canMove_row_absent (s : Scene) g (x y : Z) :
  dungeonGrid s = Some g -> g !! y = None ->
  canMove x y s = (Throw TypeError, s).
Proof.
  intros Hg Hrow. unfold canMove, bind, readTile. rewrite Hg, Hrow. reflexivity.
Qed.

Lemma canMove_gridOf (rows : list (list Z)) (s : Scene) (x y : Z) :
  dungeonGrid s = Some (gridOf rows) ->
  canMove x y s =
    match (if 0 <=? y then rows !! Z.to_nat y else None) with
    | Some r => (Normal (negb (collidable (arrayOf r !! x)) && inBounds x y), s)
    | None => (Throw TypeError, s)
    end.
Proof.
  intros Hg. pose proof (gridOf_row rows y) as Hrow.
  destruct (0 <=? y).
  - destruct (rows !! Z.to_nat y) as [r |] eqn:Hr; simpl in Hrow.
    + eapply canMove_row_present; eassumption.
    + eapply canMove_row_absent; eassumption.
  - eapply canMove_row_absent; eassumption.
Qed.

Lemma readTile_tileAt x y s : readTile x y s = (tileAt (dungeonGrid s) x y, s).
Proof.
  unfold readTile, tileAt.
  destruct (dungeonGrid s) as [g |]; [destruct (g !! y) |]; reflexivity.
Qed.

Lemma canMove_passable x y s : canMove x y s = (passable (dungeonGrid s) x y, s).
Proof.
  unfold canMove, bind, ret, passable. rewrite readTile_tileAt.
  destruct (tileAt (dungeonGrid s) x y); [| reflexivity].
  unfold collidable, inBounds. rewrite !andb_assoc. reflexivity.
Qed.

(** ** Destinations of the movement controller *)

Ltac run_movement :=
  unfold initiated, movement, windPush, directionalInput, startTween, heldAndCanMove,
    setPlayerVelocity, bind, gets, modify, ret;
  simpl;
  repeat first
    [ progress (rewrite ?canMove_passable, ?readTile_tileAt; simpl)
    | match goal with
      | |- context [match passable ?g ?x ?y with _ => _ end] =>
          destruct (passable g x y) as [[|] |] eqn:?
      | |- context [match tileAt ?g ?x ?y with _ => _ end] =>
          destruct (tileAt g x y) eqn:?
      | |- context [if leftDown ?c then _ else _] => destruct (leftDown c)
      | |- context [if rightDown ?c then _ else _] => destruct (rightDown c)
      | |- context [if upDown ?c then _ else _] => destruct (upDown c)
      | |- context [if downDown ?c then _ else _] => destruct (downDown c)
      | |- context [if tileIs ?t 9 then _ else _] => destruct (tileIs t 9)
      | |- context [if tileIs ?t 10 then _ else _] => destruct (tileIs t 10)
      end; simpl ].

Ltac only_tween Hin tw :=
  rewrite ?drop_all, ?drop_app_length; intros Hin;
  first [ inversion Hin; fail
        | apply list_elem_of_singleton in Hin; subst tw; simpl; assumption ].

(** Off the wind tiles, the cell a started tween leads to has passed the
    passability predicate. *)
Lemma movement_off_wind_is_checked time s tile :
  fst (readTile (gridX (player s)) (gridY (player s)) s) = Normal tile ->
  tileIs tile 9 = false -> tileIs tile 10 = false ->
  forall tw, tw ∈ initiated s (snd (movement time s)) ->
  fst (canMove (destGridX tw) (destGridY tw) s) = Normal true.
Proof.
  intros Hread H9 H10 tw.
  rewrite readTile_tileAt in Hread. simpl in Hread.
  rewrite canMove_passable. simpl.
  unfold initiated, movement, windPush, bind, gets, modify, ret, setPlayerVelocity.
  simpl. rewrite readTile_tileAt. simpl. rewrite Hread, H9, H10. simpl.
  run_movement; only_tween Hin tw.
Qed.

(** With no direction key held, the cell a started tween leads to has
    passed the passability predicate, on a wind tile too. *)
Lemma movement_without_input_is_checked time s :
  cursors s = noInput ->
  forall tw, tw ∈ initiated s (snd (movement time s)) ->
  fst (canMove (destGridX tw) (destGridY tw) s) = Normal true.
Proof.
  intros Hc tw. destruct s as [c ? ? ? ? ? ? ? ? ? ? ? ? ? ? ?].
  simpl in Hc. subst c. rewrite canMove_passable. simpl.
  run_movement; only_tween Hin tw.
Qed.

(** C2 (defect in the code).  The passability predicate indexes the row
    before it tests the bounds: in the 20 x 12 open room it raises a
    TypeError for the rows -1 and 12, where the claim promises [false], and
    an update with the player on the top row and the up key held raises with
    it.  A column outside the grid is answered with [false]. *)
Theorem canMove_raises_outside_rows :
  fst (canMove 10 (-1) (sceneIn openRoom)) = Throw TypeError
  /\ fst (canMove 10 12 (sceneIn openRoom)) = Throw TypeError
  /\ fst (updatePlayer nearby 200 16 (standingAt 10 0 holdUp openRoom)) = Throw TypeError
  /\ fst (canMove 20 6 (sceneIn openRoom)) = Normal false
  /\ fst (canMove (-1) 6 (sceneIn openRoom)) = Normal false
  /\ fst (canMove 10 6 (sceneIn openRoom)) = Normal true.
Proof. repeat split; vm_compute; reflexivity. Qed.

(** C3 (defect in the code).  From the start cell (10,6) of the corridor
    room, with the right key held: the first move lands on the wind tile
    (11,6); on the next move the wind push and the key are both applied, the
    tween goes to (13,6), and its completion commits the player to that
    cell, which holds a wall (tile 1) and fails the passability predicate. *)
Theorem wind_and_input_commit_wall :
  let start := setCursors holdRight (sceneIn corridorRoom) in
  let frame1 := snd (updatePlayer nearby 200 16 start) in
  let arrive1 := snd (completeTween frame1) in
  let frame2 := snd (updatePlayer nearby 400 16 arrive1) in
  let arrive2 := snd (completeTween frame2) in
  (gridX (player arrive1), gridY (player arrive1)) = (11, 6)
  /\ tweens frame2 = [mkTween (13 * TILE_SIZE) (6 * TILE_SIZE) 100 13 6]
  /\ fst (completeTween frame2) = Normal tt
  /\ (gridX (player arrive2), gridY (player arrive2)) = (13, 6)
  /\ fst (readTile 13 6 arrive2) = Normal (Some 1)
  /\ fst (canMove 13 6 arrive2) = Normal false.
Proof. repeat split; vm_compute; reflexivity. Qed.

(** C4 (defect in the code).  On the wind tile (11,6) of the corridor room
    one update adds one tween, but the held key moves its destination away
    from the cell of the wind push (12,6): to (13,6) with the right key, to
    (12,5) with the up key. *)
Theorem input_alters_wind_destination :
  let dest c :=
    (fun tw => (destGridX tw, destGridY tw)) <$>
      tweens (snd (updatePlayer nearby 200 16 (standingAt 11 6 c corridorRoom))) in
  dest noInput = [(12, 6)]
  /\ dest holdRight = [(13, 6)]
  /\ dest holdUp = [(12, 5)]
  /\ fst (canMove 13 6 (sceneIn corridorRoom)) = Normal false.
Proof. repeat split; vm_compute; reflexivity. Qed.

(** ** What the stages of an update leave alone *)

Section Frames.

Variable overlap : Z -> Z -> Sprite -> bool.

Lemma preserves_setPlayerVelocity P v : velocityBlind P -> preserves P (setPlayerVelocity v).
Proof. intros HP. apply preserves_modify. intros s. apply HP. Qed.

Lemma preserves_windPush P l : velocityBlind P -> preserves P (windPush l).
Proof.
  intros HP. unfold windPush.
  js_steps; apply preserves_setPlayerVelocity, HP.
Qed.

Lemma preserves_heldAndCanMove P b x y : preserves P (heldAndCanMove b x y).
Proof. unfold heldAndCanMove. js_steps. Qed.

Lemma preserves_directionalInput P l : velocityBlind P -> preserves P (directionalInput l).
Proof.
  intros HP. unfold directionalInput.
  repeat first [ apply preserves_heldAndCanMove
               | apply preserves_setPlayerVelocity, HP
               | js_step ].
Qed.

Lemma ensureShieldSprite_blind P s :
  (forall s o, P s -> P (setShieldSprite o s)) -> P s -> P (ensureShieldSprite s).
Proof. intros HP H. unfold ensureShieldSprite. destruct (shieldSprite s); auto. Qed.

Lemma shieldVisual_blind P delta s : resolverBlind P -> P s -> P (shieldVisual delta s).
Proof.
  intros HP H. unfold shieldVisual.
  destruct (0 <? shieldHP (gameState s)).
  - apply (rb_shieldSprite P HP), (rb_player P HP).
    apply ensureShieldSprite_blind; [apply (rb_shieldSprite P HP) | exact H].
  - destruct (shieldSprite s); [apply (rb_shieldSprite P HP) |]; exact H.
Qed.

Lemma resolveEnemy_blind P s e : resolverBlind P -> P s -> P (resolveEnemy overlap s e).
Proof.
  intros HP H. unfold resolveEnemy, destroyEnemy.
  destruct (hits overlap s e); [| exact H].
  destruct (0 <? shieldHP (gameState s)).
  - match goal with |- P (if ?b then _ else _) => destruct b end.
    + apply (rb_shieldSprite P HP), (rb_enemies P HP), (rb_gameState_shield P HP), H.
    + apply (rb_enemies P HP), (rb_gameState_shield P HP), H.
  - match goal with |- P (if ?b then _ else _) => destruct b end.
    + apply (rb_over P HP), (rb_gameState_health P HP), (rb_enemies P HP), H.
    + apply (rb_gameState_health P HP), (rb_enemies P HP), H.
Qed.

Lemma fold_resolveEnemy_keeps (P : Scene -> Prop) es s :
  (forall s e, P s -> P (resolveEnemy overlap s e)) ->
  P s -> P (fold_left (resolveEnemy overlap) es s).
Proof.
  intros HP. revert s. induction es as [| e es IH]; intros s H; simpl.
  - exact H.
  - apply IH, HP, H.
Qed.

Lemma resolveCollisions_blind P s : resolverBlind P -> P s -> P (resolveCollisions overlap s).
Proof.
  intros HP H. unfold resolveCollisions.
  apply fold_resolveEnemy_keeps; [| exact H].
  intros s' e. apply resolveEnemy_blind, HP.
Qed.

Lemma abilityGate_blind P s : resolverBlind P -> P s -> P (abilityGate s).
Proof.
  intros HP H. unfold abilityGate, JustDown.
  match goal with |- P (if ?b then _ else _) => destruct b end.
  - apply (rb_text P HP), (rb_gameState_charge P HP), (rb_projectiles P HP),
      (rb_enemies P HP), (rb_latch P HP), H.
  - apply (rb_latch P HP), H.
Qed.

Lemma updateShieldAndCollisions_blind P delta s :
  resolverBlind P -> P s -> P (updateShieldAndCollisions overlap delta s).
Proof.
  intros HP H. unfold updateShieldAndCollisions.
  apply abilityGate_blind, resolveCollisions_blind, shieldVisual_blind; auto.
Qed.

Lemma keyPickup_blind P s : pickupBlind P -> P s -> P (keyPickup overlap s).
Proof.
  intros HP H. unfold keyPickup.
  destruct (key s) as [k |]; [| exact H].
  destruct (playerOverlaps overlap (player s) k); [| exact H].
  apply (pb_text P HP), (pb_key P HP), (pb_hasKey P HP), H.
Qed.

End Frames.

(** ** The movement cooldown *)

Section Cooldown.

Variable overlap : Z -> Z -> Sprite -> bool.

Lemma movesAre_velocityBlind T L : velocityBlind (movesAre T L).
Proof. intros s v H. exact H. Qed.

Lemma movesAre_resolverBlind T L : resolverBlind (movesAre T L).
Proof. constructor; intros; assumption. Qed.

Lemma movesAre_pickupBlind T L : pickupBlind (movesAre T L).
Proof. constructor; intros; assumption. Qed.

Lemma startTween_moves time l T L :
  hoare (movesAre T L) (startTween time l) (oneMoveAt time T L).
Proof.
  intros s [HT HL]. unfold startTween.
  destruct (moved l); [| left; split; assumption].
  unfold bind, readTile.
  destruct (dungeonGrid s) as [g |]; [| left; split; assumption].
  destruct (g !! newGridY l); [| left; split; assumption].
  right. eexists. split; simpl; [rewrite HT |]; reflexivity.
Qed.

Lemma movement_moves time T L :
  hoare (movesAre T L) (movement time) (oneMoveAt time T L).
Proof.
  unfold movement.
  apply hoare_bind; [apply preserves_gets | left; assumption | intros p].
  apply hoare_bind;
    [apply preserves_setPlayerVelocity, movesAre_velocityBlind | left; assumption | intros _].
  apply hoare_bind;
    [apply preserves_windPush, movesAre_velocityBlind | left; assumption | intros l1].
  apply hoare_bind;
    [apply preserves_directionalInput, movesAre_velocityBlind | left; assumption | intros l2].
  apply startTween_moves.
Qed.

Lemma oneMoveAt_resolverBlind time T L : resolverBlind (oneMoveAt time T L).
Proof.
  constructor; intros; assumption.
Qed.

Lemma oneMoveAt_pickupBlind time T L : pickupBlind (oneMoveAt time T L).
Proof. constructor; intros; assumption. Qed.

(** An update adds at most one tween; when it adds one, the cooldown had
    elapsed and the time of the last move is the time of the frame. *)
Lemma updatePlayer_moves time delta s :
  let s0 := withGameState initLastMoveTime s in
  let s' := snd (updatePlayer overlap time delta s) in
  movesAre (tweens s) (lastMoveTime (gameState s0)) s'
  \/ (onCooldown time s0 = false
      /\ exists tw, movesAre (tweens s ++ [tw]) (Some time) s').
Proof.
  intros s0 s'. subst s'. unfold updatePlayer, bind, modify, gets. simpl.
  fold s0. destruct (onCooldown time s0) eqn:Hcool; simpl.
  - left. split; reflexivity.
  - destruct (dungeonGrid s); simpl.
    + pose proof (movement_moves time (tweens s) (lastMoveTime (gameState s0)) s0
                    (conj eq_refl eq_refl)) as Hm.
      destruct (movement time s0) as [[[] | e] sm]; simpl in *.
      * apply (keyPickup_blind overlap _ sm (oneMoveAt_pickupBlind _ _ _)) in Hm.
        apply (updateShieldAndCollisions_blind overlap _ delta _
                 (oneMoveAt_resolverBlind _ _ _)) in Hm.
        destruct Hm as [Hm | Hm]; [left | right; split]; auto.
      * destruct Hm as [Hm | Hm]; [left | right; split]; auto.
    + left. split; reflexivity.
Qed.

(** On cooldown an update initiates nothing. *)
Lemma updatePlayer_on_cooldown time delta s :
  onCooldown time (withGameState initLastMoveTime s) = true ->
  updatePlayer overlap time delta s = (Normal tt, withGameState initLastMoveTime s).
Proof.
  intros Hcool. unfold updatePlayer, bind, modify, gets. simpl.
  rewrite Hcool. reflexivity.
Qed.

Lemma initLastMoveTime_id g t :
  lastMoveTime g = Some t -> initLastMoveTime g = g.
Proof. intros H. unfold initLastMoveTime. rewrite H. reflexivity. Qed.

(** C6.  Two updates at times [t1] and [t2] with [t2 - t1 < 200] initiate at
    most one transition between them, whatever happens to the scene between
    the two calls as long as the time of the last move is kept: the first
    call stamps [lastMoveTime] when it starts its tween, and the second then
    returns at the cooldown test. *)
Theorem cooldown_at_most_one_move s t1 d1 t2 d2 s1' :
  t2 - t1 < MOVEMENT_COOLDOWN ->
  let s1 := snd (updatePlayer overlap t1 d1 s) in
  lastMoveTime (gameState s1') = lastMoveTime (gameState s1) ->
  let s2 := snd (updatePlayer overlap t2 d2 s1') in
  tweens s1 = tweens s ++ initiated s s1
  /\ tweens s2 = tweens s1' ++ initiated s1' s2
  /\ (length (initiated s s1) + length (initiated s1' s2) <= 1)%nat.
Proof.
  intros Hlt s1 Hkeep s2.
  assert (Hdrop : forall (T X : list Tween), drop (length T) (T ++ X) = X).
  { intros T X. rewrite drop_app_length. reflexivity. }
  assert (Hsame : forall a b, tweens b = tweens a -> initiated a b = []).
  { intros a b E. unfold initiated. rewrite E. apply drop_all. }
  assert (Hone : forall a b tw, tweens b = tweens a ++ [tw] -> initiated a b = [tw]).
  { intros a b tw E. unfold initiated. rewrite E. apply Hdrop. }
  pose proof (updatePlayer_moves t1 d1 s) as H1.
  pose proof (updatePlayer_moves t2 d2 s1') as H2.
  simpl in H1, H2. fold s1 in H1. fold s2 in H2.
  destruct H1 as [[HT1 HL1] | [_ [tw1 [HT1 HL1]]]].
  - rewrite (Hsame _ _ HT1), app_nil_r. split; [exact HT1 |].
    destruct H2 as [[HT2 _] | [_ [tw2 [HT2 _]]]].
    + rewrite (Hsame _ _ HT2), app_nil_r. split; [exact HT2 | simpl; lia].
    + rewrite (Hone _ _ _ HT2). split; [exact HT2 | simpl; lia].
  - rewrite (Hone _ _ _ HT1). split; [exact HT1 |].
    assert (Hcool : onCooldown t2 (withGameState initLastMoveTime s1') = true).
    { unfold onCooldown. simpl.
      rewrite (initLastMoveTime_id _ t1) by congruence.
      rewrite Hkeep, HL1. simpl. apply Z.ltb_lt. exact Hlt. }
    unfold s2. rewrite (updatePlayer_on_cooldown _ _ _ Hcool). simpl.
    rewrite (Hsame s1' (withGameState initLastMoveTime s1') eq_refl), app_nil_r.
    split; [reflexivity | simpl; lia].
Qed.

End Cooldown.

(** ** The resolver and the gate inside an update *)

Section Resolver.

Variable overlap : Z -> Z -> Sprite -> bool.

Lemma preserves_startTween P time l : movementBlind P -> preserves P (startTween time l).
Proof.
  intros HP. unfold startTween.
  js_steps; apply preserves_modify; intros s; [apply (mb_tween P HP) | apply (mb_lastMove P HP)].
Qed.

Lemma preserves_movement P time : movementBlind P -> preserves P (movement time).
Proof.
  intros HP. pose proof (mb_velocity P HP) as Hv. unfold movement.
  repeat first [ apply preserves_setPlayerVelocity, Hv
               | apply preserves_windPush, Hv
               | apply preserves_directionalInput, Hv
               | apply preserves_startTween, HP
               | js_step ].
Qed.

Lemma sameFight_movementBlind s0 : movementBlind (sameFight s0).
Proof. constructor; [intros s v H | intros s tw H | intros s t H]; exact H. Qed.

Lemma sameFight_pickupBlind s0 : pickupBlind (sameFight s0).
Proof. constructor; intros; assumption. Qed.

Lemma sameFight_hits s0 s e : sameFight s0 s -> hits overlap s e = hits overlap s0 e.
Proof.
  intros (_ & Hx & Hy). unfold hits, playerOverlaps. rewrite Hx, Hy. reflexivity.
Qed.

Lemma shieldVisual_sameFight delta s : sameFight s (shieldVisual delta s).
Proof.
  unfold shieldVisual, ensureShieldSprite, sameFight.
  destruct (0 <? shieldHP (gameState s)); destruct (shieldSprite s); simpl; auto.
Qed.

Lemma resolveEnemy_player s e : player (resolveEnemy overlap s e) = player s.
Proof.
  unfold resolveEnemy. destruct (hits overlap s e); [| reflexivity].
  destruct (0 <? shieldHP (gameState s));
    match goal with |- player (if ?b then _ else _) = _ => destruct b end; reflexivity.
Qed.

Lemma resolveEnemy_enemies s e :
  enemies (resolveEnemy overlap s e) =
    if hits overlap s e
    then List.filter (fun e' => negb (Nat.eqb (eid e') (eid e))) (enemies s)
    else enemies s.
Proof.
  unfold resolveEnemy. destruct (hits overlap s e); [| reflexivity].
  destruct (0 <? shieldHP (gameState s));
    match goal with |- enemies (if ?b then _ else _) = _ => destruct b end; reflexivity.
Qed.

Lemma gone_filter e s l :
  enemies s = List.filter (fun e' => negb (Nat.eqb (eid e') (eid e))) l -> gone e s.
Proof.
  intros E e' Hin Heq. rewrite E in Hin.
  apply list_elem_of_In, filter_In in Hin. destruct Hin as [_ Hneq].
  rewrite Heq, Nat.eqb_refl in Hneq. discriminate.
Qed.

Lemma resolveEnemy_subset s e e' :
  e' ∈ enemies (resolveEnemy overlap s e) -> e' ∈ enemies s.
Proof.
  rewrite resolveEnemy_enemies. destruct (hits overlap s e); [| auto].
  intros Hin. apply list_elem_of_In, filter_In in Hin. apply list_elem_of_In, Hin.
Qed.

Lemma resolveEnemy_gone s e e0 : gone e0 s -> gone e0 (resolveEnemy overlap s e).
Proof. intros H e' Hin. apply H, (resolveEnemy_subset s e), Hin. Qed.

Lemma resolveEnemy_destroys s e : hits overlap s e = true -> gone e (resolveEnemy overlap s e).
Proof.
  intros Hhit. eapply gone_filter. rewrite resolveEnemy_enemies, Hhit. reflexivity.
Qed.

Lemma fold_resolveEnemy_player es s :
  player (fold_left (resolveEnemy overlap) es s) = player s.
Proof.
  revert s. induction es as [| e es IH]; intros s; simpl; [reflexivity |].
  rewrite IH. apply resolveEnemy_player.
Qed.

Lemma hits_player s s' e : player s' = player s -> hits overlap s' e = hits overlap s e.
Proof. intros E. unfold hits. rewrite E. reflexivity. Qed.

(** Every enemy of the iteration that overlaps the player is destroyed by
    the end of it. *)
Lemma fold_resolveEnemy_destroys es s e :
  e ∈ es -> hits overlap s e = true -> gone e (fold_left (resolveEnemy overlap) es s).
Proof.
  revert s. induction es as [| e0 es IH]; intros s Hin Hhit.
  - inversion Hin.
  - simpl. apply elem_of_cons in Hin. destruct Hin as [-> | Hin].
    + apply fold_resolveEnemy_keeps; [intros; apply resolveEnemy_gone; assumption |].
      apply resolveEnemy_destroys, Hhit.
    + apply IH; [exact Hin |].
      rewrite (hits_player s); [exact Hhit | apply resolveEnemy_player].
Qed.

Lemma abilityGate_gone s e : gone e s -> gone e (abilityGate s).
Proof.
  intros H. unfold abilityGate, JustDown.
  match goal with |- gone _ (if ?b then _ else _) => destruct b end.
  - intros e' Hin. simpl in Hin. inversion Hin.
  - exact H.
Qed.

Lemma abilityGate_latch s : xbiteJustDown (abilityGate s) = false.
Proof.
  unfold abilityGate, JustDown.
  match goal with |- xbiteJustDown (if ?b then _ else _) = _ => destruct b end; reflexivity.
Qed.

(** The resolver and the gate, run on a scene with the enemies and the
    player position of [s], leave the observations of
    [resolverAndGateRan]. *)
Lemma updateShieldAndCollisions_ran delta s sm :
  sameFight s sm ->
  resolverAndGateRan overlap s (updateShieldAndCollisions overlap delta sm).
Proof.
  intros Hsame. split; [| apply abilityGate_latch].
  intros e Hin Hhit. unfold updateShieldAndCollisions.
  apply abilityGate_gone. unfold resolveCollisions.
  pose proof (shieldVisual_sameFight delta sm) as Hv.
  apply fold_resolveEnemy_destroys.
  - destruct Hv as (-> & _). destruct Hsame as (-> & _). exact Hin.
  - rewrite (sameFight_hits sm) by exact Hv.
    rewrite (sameFight_hits s) by exact Hsame. exact Hhit.
Qed.

End Resolver.

(** ** Frames that reach the resolver, and frames that do not *)

Section Reach.

Variable overlap : Z -> Z -> Sprite -> bool.

(** The movement controller completes when the player's row and the rows
    above and below it exist. *)
Lemma movement_completes time s g :
  dungeonGrid s = Some g ->
  is_Some (g !! (gridY (player s) - 1)) ->
  is_Some (g !! gridY (player s)) ->
  is_Some (g !! (gridY (player s) + 1)) ->
  fst (movement time s) = Normal tt.
Proof.
  intros Hg [ru Hu] [rc Hc] [rd Hd].
  unfold movement, windPush, directionalInput, startTween, heldAndCanMove,
    canMove, setPlayerVelocity, bind, gets, modify, ret, readTile.
  simpl. rewrite Hg, Hc.
  repeat (match goal with
          | |- context [if ?b then _ else _] => destruct b
          end; simpl; rewrite ?Hg, ?Hc, ?Hu, ?Hd; simpl);
    reflexivity.
Qed.

(** A frame on which the grid is absent logs the error and stops. *)
Lemma updatePlayer_without_grid time delta s :
  onCooldown time (withGameState initLastMoveTime s) = false ->
  dungeonGrid s = None ->
  updatePlayer overlap time delta s =
    (Normal tt,
     consoleError "dungeonGrid is undefined in updatePlayer"
       (withGameState initLastMoveTime s)).
Proof.
  intros Hcool Hg. unfold updatePlayer, bind, modify, gets. simpl.
  rewrite Hcool. simpl. rewrite Hg. reflexivity.
Qed.

(** C1 (as amended).  On a frame on which the cooldown has elapsed, the grid
    is present and the movement controller completes, the update runs the
    shield and collision resolver and the ability gate on the scene the
    movement controller and the key pickup left, whether or not a tween was
    started: every enemy that overlapped the player is destroyed and the
    ability key's latch is consumed.  On a frame on which the cooldown has
    elapsed and the grid is absent the update logs the error and returns
    without running either. *)
Theorem resolver_runs_when_update_proceeds time delta s :
  let s0 := withGameState initLastMoveTime s in
  onCooldown time s0 = false ->
  (forall g sm,
      dungeonGrid s = Some g ->
      movement time s0 = (Normal tt, sm) ->
      updatePlayer overlap time delta s =
        (Normal tt, updateShieldAndCollisions overlap delta (keyPickup overlap sm))
      /\ resolverAndGateRan overlap s (snd (updatePlayer overlap time delta s)))
  /\ (dungeonGrid s = None ->
      updatePlayer overlap time delta s =
        (Normal tt, consoleError "dungeonGrid is undefined in updatePlayer" s0)).
Proof.
  intros s0 Hcool. split; [| apply updatePlayer_without_grid, Hcool].
  intros g sm Hg Hm.
  assert (Hrun : updatePlayer overlap time delta s =
            (Normal tt, updateShieldAndCollisions overlap delta (keyPickup overlap sm))).
  { unfold updatePlayer, bind, modify, gets. simpl. fold s0.
    rewrite Hcool. simpl. rewrite Hg. simpl. fold s0. rewrite Hm. reflexivity. }
  split; [exact Hrun |]. rewrite Hrun. simpl.
  apply updateShieldAndCollisions_ran.
  apply keyPickup_blind; [apply sameFight_pickupBlind |].
  pose proof (preserves_movement (sameFight s) time (sameFight_movementBlind s) s0) as Hp.
  rewrite Hm in Hp. apply Hp. repeat split.
Qed.

End Reach.

(** The theorem above on the ambush scene (an enemy on the player, the
    ability key pressed, the charge full), once with the right key held, so
    that a tween is started, once with no key held, and on the ambush scene
    without a grid. *)
Lemma resolver_runs_when_update_proceeds_witness :
  let foe := enemyAt 1 480 288 in
  let moving := setCursors holdRight (ambush 0 (Some (gridOf openRoom))) in
  let still := ambush 0 (Some (gridOf openRoom)) in
  let moved := snd (updatePlayer nearby 1000 16 moving) in
  let stayed := snd (updatePlayer nearby 1000 16 still) in
  onCooldown 1000 (withGameState initLastMoveTime moving) = false
  /\ foe ∈ enemies moving /\ hits nearby moving foe = true
  /\ xbiteJustDown moving = true
  /\ length (tweens moved) = 1%nat /\ tweens stayed = []
  /\ gone foe moved /\ xbiteJustDown moved = false
  /\ gone foe stayed /\ xbiteJustDown stayed = false
  /\ onCooldown 1000 (withGameState initLastMoveTime (ambush 0 None)) = false
  /\ updatePlayer nearby 1000 16 (ambush 0 None) =
       (Normal tt,
        consoleError "dungeonGrid is undefined in updatePlayer" (ambush 0 None)).
Proof.
  intros foe moving still moved stayed.
  assert (Hm : forall s, movement 1000 s = (fst (movement 1000 s), snd (movement 1000 s)))
    by (intros s; destruct (movement 1000 s); reflexivity).
  assert (Hmoving : fst (movement 1000 (withGameState initLastMoveTime moving)) = Normal tt)
    by (vm_compute; reflexivity).
  assert (Hstill : fst (movement 1000 (withGameState initLastMoveTime still)) = Normal tt)
    by (vm_compute; reflexivity).
  destruct (proj1 (resolver_runs_when_update_proceeds nearby 1000 16 moving eq_refl)
              (gridOf openRoom) _ eq_refl
              (eq_trans (Hm _) (f_equal (fun c => (c, _)) Hmoving)))
    as [_ [Hgone1 Hlatch1]].
  destruct (proj1 (resolver_runs_when_update_proceeds nearby 1000 16 still eq_refl)
              (gridOf openRoom) _ eq_refl
              (eq_trans (Hm _) (f_equal (fun c => (c, _)) Hstill)))
    as [_ [Hgone2 Hlatch2]].
  assert (Hin : foe ∈ enemies moving) by apply list_elem_of_here.
  refine (conj eq_refl (conj Hin (conj eq_refl (conj eq_refl (conj eq_refl
            (conj eq_refl (conj (Hgone1 foe Hin eq_refl) (conj Hlatch1
            (conj (Hgone2 foe Hin eq_refl) (conj Hlatch2 (conj eq_refl _))))))))))).
  exact (proj2 (resolver_runs_when_update_proceeds nearby 1000 16 (ambush 0 None)
                  eq_refl) eq_refl).
Defined.

(** C1 (counterexample).  In the ambush scene an enemy stands on the player,
    the ability key is pressed and the charge is full.  On a frame 100 ms
    after the last move, and on a frame without a grid, the update leaves the
    enemy in the group, the charge full and the key's latch set: the resolver
    and the gate did not run. *)
Lemma update_skips_resolver :
  let g := Some (gridOf openRoom) in
  ~ resolverAndGateRan nearby (ambush 900 g) (snd (updatePlayer nearby 1000 16 (ambush 900 g)))
  /\ ~ resolverAndGateRan nearby (ambush 0 None) (snd (updatePlayer nearby 1000 16 (ambush 0 None)))
  /\ enemies (snd (updatePlayer nearby 1000 16 (ambush 900 g))) = [enemyAt 1 480 288]
  /\ chargeLevel (gameState (snd (updatePlayer nearby 1000 16 (ambush 900 g)))) = 1000
  /\ enemies (snd (updatePlayer nearby 1000 16 (ambush 0 None))) = [enemyAt 1 480 288]
  /\ chargeLevel (gameState (snd (updatePlayer nearby 1000 16 (ambush 0 None)))) = 1000
  /\ enemies (updateShieldAndCollisions nearby 16 (ambush 900 g)) = []
  /\ chargeLevel (gameState (updateShieldAndCollisions nearby 16 (ambush 900 g))) = 0.
Proof.
  intros g.
  split; [| split]; [intros [_ H]; vm_compute in H; discriminate
                    | intros [_ H]; vm_compute in H; discriminate |].
  repeat split; vm_compute; reflexivity.
Qed.

(** ** The tile resolver and the power-up applier keep what they do not write *)

Lemma preserves_checkOver P :
  (forall s, P s -> P (setOver s)) -> preserves P checkOver.
Proof. intros HP. unfold checkOver. js_steps. apply preserves_modify, HP. Qed.

Lemma preserves_removePowerUpSprite P x y :
  (forall s l, P s -> P (setPowerUpSprites l s)) -> preserves P (removePowerUpSprite x y).
Proof.
  intros HP. unfold removePowerUpSprite.
  apply preserves_bind; [apply preserves_gets | intros sprites].
  destruct (List.find (atCell x y) sprites); [| apply preserves_ret].
  apply preserves_modify. intros s. apply HP.
Qed.

Ltac tile_step HP :=
  first
    [ apply preserves_writeTile; intros ? ?; apply (tb_grid _ HP)
    | apply preserves_clearDungeonText; intros ? ?; apply (tb_texts _ HP)
    | apply preserves_removePowerUpSprite; intros ? ?; apply (tb_sprites _ HP)
    | apply preserves_checkOver; intros ?; apply (tb_over _ HP)
    | apply preserves_modify; intros ?;
      first [ apply (tb_gameState _ HP) | apply (tb_text _ HP)
            | apply (tb_player _ HP) | apply (tb_tweens _ HP) ]
    | js_step ].

Lemma preserves_applyPowerUp P tile x y : tileBlind P -> preserves P (applyPowerUp tile x y).
Proof.
  intros HP. unfold applyPowerUp.
  repeat tile_step HP.
  apply preserves_modify. intros s H.
  apply ensureShieldSprite_blind; [apply (tb_shieldSprite _ HP) | exact H].
Qed.

Lemma preserves_handleTileInteraction P x y :
  tileBlind P -> preserves P (handleTileInteraction x y).
Proof.
  intros HP. unfold handleTileInteraction.
  repeat first [ apply preserves_applyPowerUp, HP | tile_step HP ].
Qed.

Lemma preserves_onComplete P x y : tileBlind P -> preserves P (onComplete x y).
Proof.
  intros HP. unfold onComplete.
  repeat first [ apply preserves_handleTileInteraction, HP | tile_step HP ].
Qed.

Lemma preserves_completeTween P : tileBlind P -> preserves P completeTween.
Proof.
  intros HP. unfold completeTween.
  repeat first [ apply preserves_onComplete, HP | tile_step HP ].
Qed.

Lemma withGameState_init s :
  withGameState initLastMoveTime s = s
  \/ withGameState initLastMoveTime s = withGameState (setLastMoveTime (Some 0)) s.
Proof.
  destruct s as [? ? gs ? ? ? ? ? ? ? ? ? ? ? ? ?]. destruct gs as [[t |] ? ? ? ? ? ? ? ?].
  - left. reflexivity.
  - right. reflexivity.
Qed.

(** An update keeps every predicate that looks at none of the parts its
    stages write. *)
Lemma preserves_updatePlayer overlap P time delta :
  movementBlind P -> pickupBlind P -> resolverBlind P ->
  (forall s msg, P s -> P (consoleError msg s)) ->
  preserves P (updatePlayer overlap time delta).
Proof.
  intros Hm Hk Hr Hc. unfold updatePlayer.
  apply preserves_bind.
  { apply preserves_modify. intros s H.
    destruct (withGameState_init s) as [-> | ->]; [exact H |].
    apply (mb_lastMove P Hm), H. }
  intros _. apply preserves_bind; [apply preserves_gets | intros cooling].
  destruct cooling; [apply preserves_ret |].
  apply preserves_bind; [apply preserves_gets | intros grid].
  destruct grid; [| apply preserves_modify; intros s; apply Hc].
  apply preserves_bind; [apply preserves_movement, Hm | intros _].
  apply preserves_bind; apply preserves_modify || intros _.
  - intros s. apply keyPickup_blind, Hk.
  - apply preserves_modify. intros s. apply updateShieldAndCollisions_blind, Hr.
Qed.

(** ** The cooldown across a tween completion *)

(** The completion of a tween does not touch the time of the last move. *)
Lemma completeTween_keeps_lastMoveTime s :
  lastMoveTime (gameState (snd (completeTween s))) = lastMoveTime (gameState s).
Proof.
  set (P := fun s' : Scene => lastMoveTime (gameState s') = lastMoveTime (gameState s)).
  assert (Hp : preserves P completeTween); [| exact (Hp s eq_refl)].
  assert (Hmod : forall f : Scene -> Scene,
             (forall s', lastMoveTime (gameState (f s')) = lastMoveTime (gameState s')) ->
             preserves P (modify f)).
  { intros f Hf. apply preserves_modify. intros s' H. unfold P. rewrite Hf. exact H. }
  assert (Hpow : forall t x y, preserves P (applyPowerUp t x y)).
  { intros t x y. unfold applyPowerUp.
    apply preserves_bind; [apply preserves_writeTile; intros s' g H; exact H | intros _].
    apply preserves_bind; [apply preserves_clearDungeonText; intros s' g H; exact H | intros _].
    apply preserves_bind;
      [apply preserves_removePowerUpSprite; intros s' l H; exact H | intros _].
    js_steps; apply Hmod; intros s'; try reflexivity.
    unfold ensureShieldSprite. destruct (shieldSprite s'); reflexivity. }
  unfold completeTween.
  apply preserves_bind; [apply preserves_gets | intros tws].
  destruct tws as [| tw rest]; [apply preserves_ret |].
  apply preserves_bind; [apply Hmod; reflexivity | intros _].
  unfold onComplete.
  apply preserves_bind; [apply Hmod; reflexivity | intros _].
  unfold handleTileInteraction.
  apply preserves_bind; [apply preserves_readTile | intros tile].
  destruct (tileIs tile 5 || tileIs tile 8).
  - unfold checkOver. js_steps; apply Hmod; reflexivity.
  - destruct (tileIs tile 6).
    + apply preserves_bind; [apply Hmod; reflexivity | intros _].
      apply preserves_bind; [apply preserves_writeTile; intros s' g H; exact H | intros _].
      apply preserves_bind;
        [apply preserves_clearDungeonText; intros s' g H; exact H | intros _].
      js_steps. apply Hmod; reflexivity.
    + destruct (isPowerUp tile); [apply Hpow | apply preserves_ret].
Qed.

(** The theorem above in the open room with the right key held: the frame
    at 200 ms starts a tween, the tween completes, and the frame at 350 ms
    starts none. *)
Lemma cooldown_at_most_one_move_witness :
  let s := setCursors holdRight (sceneIn openRoom) in
  let s1 := snd (updatePlayer nearby 200 16 s) in
  let s1' := snd (completeTween s1) in
  let s2 := snd (updatePlayer nearby 350 16 s1') in
  350 - 200 < MOVEMENT_COOLDOWN
  /\ lastMoveTime (gameState s1') = lastMoveTime (gameState s1)
  /\ tweens s1 = tweens s ++ initiated s s1
  /\ tweens s2 = tweens s1' ++ initiated s1' s2
  /\ (length (initiated s s1) + length (initiated s1' s2) <= 1)%nat.
Proof.
  intros s s1 s1' s2.
  assert (Hlt : 350 - 200 < MOVEMENT_COOLDOWN) by reflexivity.
  assert (Hkeep : lastMoveTime (gameState s1') = lastMoveTime (gameState s1))
    by apply completeTween_keeps_lastMoveTime.
  split; [exact Hlt |]. split; [exact Hkeep |].
  exact (cooldown_at_most_one_move nearby s 200 16 350 16 s1' Hlt Hkeep).
Defined.

(** ** The over-state *)

Lemma isOver_tileBlind : tileBlind isOver.
Proof. constructor; intros; first [assumption | reflexivity]. Qed.

Lemma isOver_movementBlind : movementBlind isOver.
Proof. constructor; [intros s v H | intros s tw H | intros s t H]; exact H. Qed.

Lemma isOver_pickupBlind : pickupBlind isOver.
Proof. constructor; intros; assumption. Qed.

Lemma isOver_resolverBlind : resolverBlind isOver.
Proof. constructor; intros; first [assumption | reflexivity]. Qed.

(** A hazard tile costs 20 health, whatever the scene. *)
Lemma hazard_costs_20 s x y tile :
  fst (readTile x y s) = Normal tile ->
  tileIs tile 5 || tileIs tile 8 = true ->
  playerHealth (gameState (snd (handleTileInteraction x y s)))
  = playerHealth (gameState s) - 20.
Proof.
  intros Hread Hhaz. unfold handleTileInteraction, bind.
  assert (Hs : snd (readTile x y s) = s).
  { unfold readTile. destruct (dungeonGrid s) as [g |]; [destruct (g !! y) |]; reflexivity. }
  destruct (readTile x y s) as [c s']. simpl in Hread, Hs. subst c s'.
  rewrite Hhaz. unfold checkOver, bind, modify, gets. simpl.
  destruct (playerHealth (gameState s) - 20 <=? 0); reflexivity.
Qed.

(** An overlap without shield charge costs 10 health, whatever the scene. *)
Lemma unshielded_overlap_costs_10 overlap s e :
  hits overlap s e = true -> shieldHP (gameState s) <= 0 ->
  playerHealth (gameState (resolveEnemy overlap s e)) = playerHealth (gameState s) - 10.
Proof.
  intros Hhit Hsh. unfold resolveEnemy. rewrite Hhit.
  destruct (Z.ltb_spec 0 (shieldHP (gameState s))) as [Hpos | _]; [lia |].
  simpl. destruct (playerHealth (gameState s) - 10 <=? 0); reflexivity.
Qed.

(** C5 (counterexample).  The player arrives on the spike with 15 health:
    the health is -5 and the over-state is set.  A second arrival on the
    spike then brings the health to -25, an update with an enemy on the
    player brings it to -15 and destroys the enemy, and an update with the
    right key held still starts a tween. *)
Lemma damage_continues_after_game_over :
  let s := spikeArrival 15 in
  gameOver s = true
  /\ playerHealth (gameState s) = -5
  /\ playerHealth (gameState (snd (handleTileInteraction 11 6 s))) = -25
  /\ playerHealth (gameState (snd (updatePlayer nearby 400 16
                                     (setEnemies [enemyAt 1 528 288] s)))) = -15
  /\ enemies (snd (updatePlayer nearby 400 16 (setEnemies [enemyAt 1 528 288] s))) = []
  /\ (fun tw => (destGridX tw, destGridY tw)) <$> tweens (snd (updatePlayer nearby 400 16 s))
     = [(12, 6)].
Proof. repeat split; vm_compute; reflexivity. Qed.

(** ** The bounds of the stored health *)

Lemma healthy_movementBlind : movementBlind healthy.
Proof. constructor; [intros s v H | intros s tw H | intros s t H]; exact H. Qed.

Lemma healthy_pickupBlind : pickupBlind healthy.
Proof. constructor; intros; assumption. Qed.

Ltac healthy_modify :=
  apply preserves_modify; intros ? [? Hover]; split; simpl in *;
  [lia | first [exact Hover | intros; apply Hover; lia]].

Lemma applyPowerUp_healthy tile x y : preserves healthy (applyPowerUp tile x y).
Proof.
  unfold applyPowerUp.
  apply preserves_bind; [apply preserves_writeTile; intros s g H; exact H | intros _].
  apply preserves_bind; [apply preserves_clearDungeonText; intros s t H; exact H | intros _].
  apply preserves_bind; [apply preserves_removePowerUpSprite; intros s l H; exact H | intros _].
  js_steps; try healthy_modify.
  apply preserves_modify. intros s H.
  apply ensureShieldSprite_blind; [intros s' o H'; exact H' | exact H].
Qed.

Lemma handleTileInteraction_healthy x y : preserves healthy (handleTileInteraction x y).
Proof.
  unfold handleTileInteraction.
  apply preserves_bind; [apply preserves_readTile | intros tile].
  destruct (tileIs tile 5 || tileIs tile 8).
  - intros s [Hmax Hover]. unfold checkOver, bind, modify, gets. simpl.
    destruct (Z.leb_spec (playerHealth (gameState s) - 20) 0) as [Hle | Hgt];
      split; simpl; try reflexivity; lia.
  - destruct (tileIs tile 6).
    + apply preserves_bind; [healthy_modify | intros _].
      apply preserves_bind; [apply preserves_writeTile; intros s g H; exact H | intros _].
      apply preserves_bind;
        [apply preserves_clearDungeonText; intros s t H; exact H | intros _].
      js_steps. healthy_modify.
    + destruct (isPowerUp tile); [apply applyPowerUp_healthy | apply preserves_ret].
Qed.

Lemma completeTween_healthy : preserves healthy completeTween.
Proof.
  unfold completeTween.
  apply preserves_bind; [apply preserves_gets | intros tws].
  destruct tws as [| tw rest]; [apply preserves_ret |].
  apply preserves_bind; [healthy_modify | intros _].
  unfold onComplete.
  apply preserves_bind; [healthy_modify | intros _].
  apply handleTileInteraction_healthy.
Qed.

Lemma shieldVisual_healthy delta s : healthy s -> healthy (shieldVisual delta s).
Proof.
  intros H. unfold shieldVisual, ensureShieldSprite.
  destruct (0 <? shieldHP (gameState s)); destruct (shieldSprite s); exact H.
Qed.

Lemma resolveEnemy_healthy overlap s e : healthy s -> healthy (resolveEnemy overlap s e).
Proof.
  intros [Hmax Hover]. unfold resolveEnemy.
  destruct (hits overlap s e); [| split; assumption].
  destruct (0 <? shieldHP (gameState s)).
  - match goal with |- healthy (if ?b then _ else _) => destruct b end;
      split; assumption.
  - simpl. destruct (Z.leb_spec (playerHealth (gameState s) - 10) 0) as [Hle | Hgt];
      split; simpl; try reflexivity; lia.
Qed.

Lemma abilityGate_healthy s : healthy s -> healthy (abilityGate s).
Proof.
  intros H. unfold abilityGate, JustDown.
  match goal with |- healthy (if ?b then _ else _) => destruct b end; exact H.
Qed.

Lemma updatePlayer_healthy overlap time delta :
  preserves healthy (updatePlayer overlap time delta).
Proof.
  unfold updatePlayer.
  apply preserves_bind.
  { apply preserves_modify. intros s H.
    destruct (withGameState_init s) as [-> | ->]; exact H. }
  intros _. apply preserves_bind; [apply preserves_gets | intros cooling].
  destruct cooling; [apply preserves_ret |].
  apply preserves_bind; [apply preserves_gets | intros grid].
  destruct grid; [| apply preserves_modify; intros s H; exact H].
  apply preserves_bind; [apply preserves_movement, healthy_movementBlind | intros _].
  apply preserves_bind; apply preserves_modify || intros _.
  - intros s. apply keyPickup_blind, healthy_pickupBlind.
  - apply preserves_modify. intros s H. unfold updateShieldAndCollisions.
    apply abilityGate_healthy. unfold resolveCollisions.
    apply fold_resolveEnemy_keeps; [intros; apply resolveEnemy_healthy; assumption |].
    apply shieldVisual_healthy, H.
Qed.

(** The heal power-up, when its application completes, stores the minimum
    of the health plus 25 and 100. *)
Lemma heal_clamps s x y :
  fst (applyPowerUp 23 x y s) = Normal tt ->
  playerHealth (gameState (snd (applyPowerUp 23 x y s)))
  = Z.min (playerHealth (gameState s) + 25) 100.
Proof.
  unfold applyPowerUp, removePowerUpSprite, writeTile, clearDungeonText,
    bind, modify, gets, ret.
  simpl.
  destruct (dungeonGrid s) as [g |]; [| discriminate].
  destruct (g !! y); [| discriminate]. simpl.
  destruct (dungeonTexts s !! (y * GRID_WIDTH + x)); [| discriminate]. simpl.
  destruct (List.find (atCell x y) (powerUpSprites s)); intros _; reflexivity.
Qed.

(** C9 (as amended).  The stored health never exceeds 100 and the over-state
    is set whenever it is not positive: updates, tween completions, tile
    arrivals and power-ups keep both.  The heal power-up stores the minimum
    of the health plus 25 and 100.  There is no lower clamp: a hazard takes
    20 and an overlap without shield charge takes 10 even when the result is
    negative. *)
Theorem health_at_most_100_no_lower_clamp overlap s :
  healthy s ->
  (forall time delta, healthy (snd (updatePlayer overlap time delta s)))
  /\ healthy (snd (completeTween s))
  /\ (forall x y, healthy (snd (handleTileInteraction x y s)))
  /\ (forall tile x y, healthy (snd (applyPowerUp tile x y s)))
  /\ (forall x y,
         fst (applyPowerUp 23 x y s) = Normal tt ->
         playerHealth (gameState (snd (applyPowerUp 23 x y s)))
         = Z.min (playerHealth (gameState s) + 25) 100)
  /\ (forall x y tile,
         fst (readTile x y s) = Normal tile ->
         tileIs tile 5 || tileIs tile 8 = true ->
         playerHealth (gameState (snd (handleTileInteraction x y s)))
         = playerHealth (gameState s) - 20)
  /\ (forall e,
         hits overlap s e = true -> shieldHP (gameState s) <= 0 ->
         playerHealth (gameState (resolveEnemy overlap s e))
         = playerHealth (gameState s) - 10).
Proof.
  intros H. refine (conj _ (conj _ (conj _ (conj _ (conj _ (conj _ _)))))).
  - intros time delta. apply updatePlayer_healthy, H.
  - apply completeTween_healthy, H.
  - intros x y. apply handleTileInteraction_healthy, H.
  - intros tile x y. apply applyPowerUp_healthy, H.
  - intros x y. apply heal_clamps.
  - intros x y tile. apply hazard_costs_20.
  - intros e. apply unshielded_overlap_costs_10.
Qed.

(** The theorem above for a player with 90 health in the open room: the
    heal power-up gives 100. *)
Lemma health_at_most_100_no_lower_clamp_witness :
  let s := withGameState (setPlayerHealth 90) (sceneIn openRoom) in
  healthy s
  /\ fst (applyPowerUp 23 10 6 s) = Normal tt
  /\ playerHealth (gameState (snd (applyPowerUp 23 10 6 s))) = 100
  /\ healthy (snd (updatePlayer nearby 200 16 s)).
Proof.
  intros s.
  assert (H : healthy s) by (split; simpl; [lia | intros Hle; exfalso; simpl in Hle; lia]).
  assert (Hrun : fst (applyPowerUp 23 10 6 s) = Normal tt) by (vm_compute; reflexivity).
  pose proof (health_at_most_100_no_lower_clamp nearby s H) as (Hupd & _ & _ & _ & Hheal & _).
  split; [exact H |]. split; [exact Hrun |]. split; [| apply Hupd].
  rewrite (Hheal 10 6 Hrun). reflexivity.
Defined.

(** C9 (counterexample).  With 15 health the arrival on the spike stores
    -5, and with 5 health an enemy overlap without shield charge stores
    -5: the stored health leaves the range 0..100. *)
Lemma damage_drives_health_below_zero :
  playerHealth (gameState (spikeStart 15)) = 15
  /\ playerHealth (gameState (spikeArrival 15)) = -5
  /\ playerHealth
       (gameState
          (snd (updatePlayer nearby 200 16
                  (setEnemies [enemyAt 1 480 288]
                     (withGameState (setPlayerHealth 5) (sceneIn openRoom))))))
     = -5.
Proof. repeat split; vm_compute; reflexivity. Qed.

(** ** Power-ups overwrite *)

Lemma applyPowerUp_completes tile x y s :
  cellReady x y s -> fst (applyPowerUp tile x y s) = Normal tt.
Proof.
  intros [(g & row & Hg & Hrow) [t Ht]].
  unfold applyPowerUp, removePowerUpSprite, writeTile, clearDungeonText,
    bind, modify, gets, ret.
  simpl. rewrite Hg, Hrow. simpl. rewrite Ht. simpl.
  destruct (List.find (atCell x y) (powerUpSprites s)); simpl;
    repeat match goal with |- context [if ?b then _ else _] => destruct b end;
    reflexivity.
Qed.

Lemma applyPowerUp_cellReady tile x y x' y' :
  preserves (cellReady x' y') (applyPowerUp tile x y).
Proof.
  assert (Hblind : forall (f : Scene -> Scene),
             (forall s, dungeonGrid (f s) = dungeonGrid s) ->
             (forall s, dungeonTexts (f s) = dungeonTexts s) ->
             forall s, cellReady x' y' s -> cellReady x' y' (f s)).
  { intros f Hfg Hft s H. unfold cellReady. rewrite Hfg, Hft. exact H. }
  unfold applyPowerUp.
  apply preserves_bind; [| intros _].
  { intros s [(g & row & Hg & Hrow) Ht]. unfold writeTile. rewrite Hg.
    destruct (g !! y) as [r |] eqn:Hy; simpl; [| split; eauto].
    split; [| exact Ht].
    destruct (decide (y = y')) as [-> | Hne].
    - eexists _, _. split; [reflexivity | apply lookup_insert_eq].
    - eexists _, _. split; [reflexivity |].
      rewrite lookup_insert_ne by exact Hne. exact Hrow. }
  apply preserves_bind; [| intros _].
  { intros s [Hg Ht]. unfold clearDungeonText.
    destruct (dungeonTexts s !! (y * GRID_WIDTH + x)) eqn:Hi; simpl; [| split; auto].
    split; [exact Hg |]. simpl.
    destruct (decide (y * GRID_WIDTH + x = y' * GRID_WIDTH + x')) as [E | Hne].
    - rewrite E, lookup_insert_eq. eauto.
    - rewrite lookup_insert_ne by exact Hne. exact Ht. }
  apply preserves_bind;
    [apply preserves_removePowerUpSprite; intros s l; apply Hblind; reflexivity | intros _].
  js_steps; apply preserves_modify; intros s; try (apply Hblind; reflexivity).
  intros H. unfold ensureShieldSprite. destruct (shieldSprite s); [exact H |].
  revert H. apply Hblind; reflexivity.
Qed.

Ltac run_applyPowerUp :=
  unfold applyPowerUp, removePowerUpSprite, writeTile, clearDungeonText,
    ensureShieldSprite, bind, modify, gets, ret;
  simpl;
  repeat match goal with
         | |- context [match ?o with Some _ => _ | None => _ end] => destruct o; simpl
         end;
  intros Hrun; first [discriminate Hrun | reflexivity].

Lemma shield_sets_3 x y s :
  fst (applyPowerUp 19 x y s) = Normal tt ->
  shieldHP (gameState (snd (applyPowerUp 19 x y s))) = 3.
Proof. run_applyPowerUp. Qed.

Lemma tripleShot_sets_30000 x y s :
  fst (applyPowerUp 20 x y s) = Normal tt ->
  tripleShotTimer (gameState (snd (applyPowerUp 20 x y s))) = 30000.
Proof. run_applyPowerUp. Qed.

Lemma speedBoost_sets_30000 x y s :
  fst (applyPowerUp 21 x y s) = Normal tt ->
  speedBoostTimer (gameState (snd (applyPowerUp 21 x y s))) = 30000.
Proof. run_applyPowerUp. Qed.

Lemma slowShot_sets_30000 x y s :
  fst (applyPowerUp 22 x y s) = Normal tt ->
  slowShotTimer (gameState (snd (applyPowerUp 22 x y s))) = 30000.
Proof. run_applyPowerUp. Qed.

(** C7.  Applying the same power-up twice, at cells that can be cleared,
    completes both times and leaves the shield charge at 3, respectively the
    triple-shot, speed-boost and slow-shot timer at 30000: the value of one
    application, whatever the field held before. *)
Theorem power_up_twice_overwrites s x1 y1 x2 y2 :
  cellReady x1 y1 s -> cellReady x2 y2 s ->
  let once tile := applyPowerUp tile x1 y1 s in
  let twice tile := applyPowerUp tile x2 y2 (snd (once tile)) in
  (forall tile, fst (once tile) = Normal tt /\ fst (twice tile) = Normal tt)
  /\ shieldHP (gameState (snd (once 19))) = 3
  /\ shieldHP (gameState (snd (twice 19))) = 3
  /\ tripleShotTimer (gameState (snd (once 20))) = 30000
  /\ tripleShotTimer (gameState (snd (twice 20))) = 30000
  /\ speedBoostTimer (gameState (snd (once 21))) = 30000
  /\ speedBoostTimer (gameState (snd (twice 21))) = 30000
  /\ slowShotTimer (gameState (snd (once 22))) = 30000
  /\ slowShotTimer (gameState (snd (twice 22))) = 30000.
Proof.
  intros H1 H2 once twice.
  assert (Hrun : forall tile, fst (once tile) = Normal tt /\ fst (twice tile) = Normal tt).
  { intros tile. split; [apply applyPowerUp_completes, H1 |].
    apply applyPowerUp_completes, applyPowerUp_cellReady, H2. }
  split; [exact Hrun |].
  repeat split;
    first [ apply shield_sets_3 | apply tripleShot_sets_30000
          | apply speedBoost_sets_30000 | apply slowShot_sets_30000 ];
    apply Hrun.
Qed.

Lemma sceneIn_cellReady rows x y :
  (0 <=? y) && (y <? Z.of_nat (length rows)) = true ->
  (0 <=? y * GRID_WIDTH + x) && (y * GRID_WIDTH + x <? 240) = true ->
  cellReady x y (sceneIn rows).
Proof.
  intros Hy Hi. apply andb_true_iff in Hy as [Hy0 Hy1], Hi as [Hi0 Hi1].
  apply Z.ltb_lt in Hy1, Hi1. split.
  - exists (gridOf rows). simpl. rewrite gridOf_row, Hy0.
    destruct (lookup_lt_is_Some_2 rows (Z.to_nat y)) as [r Hr]; [apply Z.leb_le in Hy0; lia |].
    rewrite Hr. eauto.
  - simpl. unfold blankTexts. rewrite arrayOf_lookup, Hi0.
    apply lookup_lt_is_Some_2. rewrite length_replicate. apply Z.leb_le in Hi0. lia.
Qed.

(** The theorem above in the open room, at the cells (3,4) and (7,8), from a
    shield charge of 2 and timers at 12000. *)
Lemma power_up_twice_overwrites_witness :
  let s := withGameState (fun _ => mkGameState None 12000 12000 12000 100 2 0 0 false)
             (sceneIn openRoom) in
  cellReady 3 4 s /\ cellReady 7 8 s
  /\ shieldHP (gameState (snd (applyPowerUp 19 7 8 (snd (applyPowerUp 19 3 4 s))))) = 3
  /\ tripleShotTimer (gameState (snd (applyPowerUp 20 7 8 (snd (applyPowerUp 20 3 4 s)))))
     = 30000.
Proof.
  intros s.
  assert (H1 : cellReady 3 4 s) by (apply (sceneIn_cellReady openRoom 3 4); reflexivity).
  assert (H2 : cellReady 7 8 s) by (apply (sceneIn_cellReady openRoom 7 8); reflexivity).
  pose proof (power_up_twice_overwrites s 3 4 7 8 H1 H2) as (_ & _ & Hs & _ & Ht & _).
  split; [exact H1 |]. split; [exact H2 |]. split; [exact Hs | exact Ht].
Defined.

(** ** The ability gate *)

Section Gate.

Variable overlap : Z -> Z -> Sprite -> bool.







End Gate.


(** ** Further properties of the passability predicate *)

(** X1.  On a row that exists, [canMove] completes, leaves the scene as it
    is, and answers [true] exactly for a cell inside the 20 x 12 bounds
    whose tile is not one of 1, 2, 7, 13, 14; a column outside the row is
    answered, not raised. *)
Theorem canMove_on_existing_row s g row x y :
  dungeonGrid s = Some g -> g !! y = Some row ->
  exists b,
    canMove x y s = (Normal b, s)
    /\ (b = true <->
        (0 <= x < GRID_WIDTH /\ 0 <= y < GRID_HEIGHT
         /\ ~ exists t, row !! x = Some t /\ t ∈ [1; 2; 7; 13; 14])).
Proof.
  intros Hg Hrow. eexists. split; [apply (canMove_row_present s g row x y Hg Hrow) |].
  rewrite andb_true_iff, negb_true_iff. unfold inBounds.
  rewrite !andb_true_iff, !Z.leb_le, !Z.ltb_lt.
  rewrite <- not_true_iff_false, collidable_spec. tauto.
Qed.

Lemma canMove_on_existing_row_witness :
  exists b,
    canMove 20 6 (sceneIn openRoom) = (Normal b, sceneIn openRoom)
    /\ (b = true <->
        (0 <= 20 < GRID_WIDTH /\ 0 <= 6 < GRID_HEIGHT
         /\ ~ exists t, arrayOf floorRow !! 20 = Some t /\ t ∈ [1; 2; 7; 13; 14])).
Proof.
  apply (canMove_on_existing_row (sceneIn openRoom) (gridOf openRoom) (arrayOf floorRow) 20 6).
  - reflexivity.
  - vm_compute. reflexivity.
Defined.

(** ** Further properties of the movement controller *)

Lemma primed_player s : player (primed s) = player s.
Proof. reflexivity. Qed.

Lemma primed_grid s : dungeonGrid (primed s) = dungeonGrid s.
Proof. reflexivity. Qed.

(** The tweens after an update are those the movement controller leaves,
    when the update gets to it. *)
Lemma updatePlayer_tweens overlap time delta s :
  tweens (snd (updatePlayer overlap time delta s)) =
    if onCooldown time (primed s) then tweens s
    else match dungeonGrid s with
         | None => tweens s
         | Some _ => tweens (snd (movement time (primed s)))
         end.
Proof.
  unfold updatePlayer, bind, modify, gets. simpl. fold (primed s).
  destruct (onCooldown time (primed s)); [reflexivity |]. simpl.
  destruct (dungeonGrid s); [| reflexivity]. simpl.
  destruct (movement time (primed s)) as [[[] | e] sm]; [| reflexivity]. simpl.
  set (P := fun s' : Scene => tweens s' = tweens sm).
  assert (Hr : resolverBlind P) by (constructor; intros; assumption).
  assert (Hk : pickupBlind P) by (constructor; intros; assumption).
  apply (updateShieldAndCollisions_blind overlap P delta _ Hr).
  apply (keyPickup_blind overlap P sm Hk). reflexivity.
Qed.

Lemma passable_row g row x y :
  g !! y = Some row ->
  passable (Some g) x y = Normal (negb (collidable (row !! x)) && inBounds x y).
Proof. intros H. unfold passable, tileAt. rewrite H. reflexivity. Qed.

Lemma tileAt_row g row x y : g !! y = Some row -> tileAt (Some g) x y = Normal (row !! x).
Proof. intros H. unfold tileAt. rewrite H. reflexivity. Qed.

Ltac no_throw :=
  match goal with
  | E : passable (dungeonGrid ?s) ?x ?y = Throw _,
    Hg : dungeonGrid ?s = Some ?g, H : ?g !! ?y = Some _ |- _ =>
      rewrite Hg, (passable_row _ _ x _ H) in E; discriminate E
  | E : tileAt (dungeonGrid ?s) ?x ?y = Throw _,
    Hg : dungeonGrid ?s = Some ?g, H : ?g !! ?y = Some _ |- _ =>
      rewrite Hg, (tileAt_row _ _ x _ H) in E; discriminate E
  end.

(** Off the wind tiles and with the three rows present, the movement
    controller completes and starts a tween to the cell the keys select, or
    none when they select none. *)
Lemma movement_follows_keys time s :
  offWind s -> rowsAround s ->
  fst (movement time s) = Normal tt
  /\ dest <$> initiated s (snd (movement time s)) = option_list (keyedCell s).
Proof.
  intros (tile & Htile & H9 & H10) (g & Hg & [ru Hu] & [rc Hc] & [rd Hd]).
  unfold keyedCell, wants.
  unfold initiated, movement, windPush, bind, gets, modify, ret, setPlayerVelocity.
  simpl. rewrite readTile_tileAt. simpl. rewrite Htile, H9, H10. simpl.
  run_movement; try no_throw;
    rewrite ?drop_all, ?drop_app_length; simpl; split; reflexivity.
Qed.

(** What an update leaves of a part of the scene that neither the key
    pickup nor the resolver writes. *)
Lemma updatePlayer_proj {A} (proj : Scene -> A) overlap time delta s :
  (forall v, resolverBlind (fun s' => proj s' = v)) ->
  (forall v, pickupBlind (fun s' => proj s' = v)) ->
  (forall s' msg, proj (consoleError msg s') = proj s') ->
  proj (snd (updatePlayer overlap time delta s)) =
    if onCooldown time (primed s) then proj (primed s)
    else match dungeonGrid s with
         | None => proj (primed s)
         | Some _ => proj (snd (movement time (primed s)))
         end.
Proof.
  intros Hr Hk Hc.
  unfold updatePlayer, bind, modify, gets. simpl. fold (primed s).
  destruct (onCooldown time (primed s)); [reflexivity |]. simpl.
  destruct (dungeonGrid s); [| apply Hc]. simpl.
  destruct (movement time (primed s)) as [[[] | e] sm]; [| reflexivity]. simpl.
  apply (updateShieldAndCollisions_blind overlap _ delta _ (Hr (proj sm))).
  apply (keyPickup_blind overlap _ sm (Hk (proj sm))). reflexivity.
Qed.

Lemma updatePlayer_fst overlap time delta s :
  fst (updatePlayer overlap time delta s) =
    if onCooldown time (primed s) then Normal tt
    else match dungeonGrid s with
         | None => Normal tt
         | Some _ => fst (movement time (primed s))
         end.
Proof.
  unfold updatePlayer, bind, modify, gets. simpl. fold (primed s).
  destruct (onCooldown time (primed s)); [reflexivity |]. simpl.
  destruct (dungeonGrid s); [| reflexivity]. simpl.
  destruct (movement time (primed s)) as [[[] | e] sm]; reflexivity.
Qed.

Lemma updatePlayer_initiated overlap time delta s :
  initiated s (snd (updatePlayer overlap time delta s)) =
    if onCooldown time (primed s) then []
    else match dungeonGrid s with
         | None => []
         | Some _ => initiated (primed s) (snd (movement time (primed s)))
         end.
Proof.
  unfold initiated. rewrite updatePlayer_tweens.
  destruct (onCooldown time (primed s)); [apply drop_all |].
  destruct (dungeonGrid s); [reflexivity | apply drop_all].
Qed.

Lemma updatePlayer_lastMoveTime overlap time delta s :
  lastMoveTime (gameState (snd (updatePlayer overlap time delta s))) =
    if onCooldown time (primed s) then lastMoveTime (gameState (primed s))
    else match dungeonGrid s with
         | None => lastMoveTime (gameState (primed s))
         | Some _ => lastMoveTime (gameState (snd (movement time (primed s))))
         end.
Proof.
  apply (updatePlayer_proj (fun s' => lastMoveTime (gameState s'))).
  - intros v. constructor; intros; assumption.
  - intros v. constructor; intros; assumption.
  - reflexivity.
Qed.

(** X2.  Off the wind tiles, with the cooldown elapsed and the player's row
    and its two neighbours present, an update completes and starts a tween
    to the cell chosen by the held keys in the order left, right, up, down,
    skipping a key whose cell fails the passability predicate; it starts
    none when no held key has a passable cell. *)
Theorem update_follows_key_priority overlap time delta s :
  onCooldown time (primed s) = false ->
  offWind s -> rowsAround s ->
  fst (updatePlayer overlap time delta s) = Normal tt
  /\ dest <$> initiated s (snd (updatePlayer overlap time delta s))
     = option_list (keyedCell s).
Proof.
  intros Hcool Hoff Hrows.
  rewrite updatePlayer_fst, updatePlayer_initiated, Hcool.
  destruct Hrows as (g & Hg & Hrows). rewrite Hg.
  apply (movement_follows_keys time (primed s)); [exact Hoff |].
  exists g. split; [exact Hg | exact Hrows].
Qed.

Lemma openRoom_rowsAround c x y :
  (1 <=? y) && (y <=? 10) = true -> rowsAround (standingAt x y c openRoom).
Proof.
  intros Hy. apply andb_true_iff in Hy as [H1 H2].
  apply Z.leb_le in H1, H2.
  exists (gridOf openRoom). split; [reflexivity |]. simpl.
  rewrite !gridOf_row.
  repeat split;
    match goal with
    | |- is_Some (if ?b then _ else _) =>
        let E := fresh in destruct b eqn:E; [| apply Z.leb_gt in E; lia]
    end;
    apply fmap_is_Some, lookup_lt_is_Some_2; simpl; lia.
Qed.

Lemma openRoom_offWind c x y :
  (0 <=? y) && (y <=? 11) = true -> offWind (standingAt x y c openRoom).
Proof.
  intros Hy. apply andb_true_iff in Hy as [H1 H2]. apply Z.leb_le in H1, H2.
  unfold offWind. simpl.
  destruct (lookup_lt_is_Some_2 openRoom (Z.to_nat y)) as [r Hr]; [simpl; lia |].
  assert (Hrow : gridOf openRoom !! y = Some (arrayOf r)).
  { rewrite gridOf_row. destruct (Z.leb_spec 0 y); [| lia]. rewrite Hr. reflexivity. }
  exists (arrayOf r !! x). split; [apply tileAt_row, Hrow |].
  assert (Hfloor : r = floorRow).
  { apply list_elem_of_lookup_2 in Hr. apply elem_of_replicate in Hr as [-> _]. reflexivity. }
  subst r. rewrite arrayOf_lookup.
  destruct (0 <=? x); [| split; reflexivity].
  destruct (floorRow !! Z.to_nat x) as [t |] eqn:Ht; [| split; reflexivity].
  apply list_elem_of_lookup_2 in Ht. apply elem_of_replicate in Ht as [-> _].
  split; reflexivity.
Qed.

(** The theorem above in the open room with all four keys held at the cell
    (0,6): the left cell is out of bounds, so the player goes right. *)
Lemma update_follows_key_priority_witness :
  let s := standingAt 0 6 (mkCursors true true true true) openRoom in
  onCooldown 200 (primed s) = false
  /\ fst (updatePlayer nearby 200 16 s) = Normal tt
  /\ dest <$> initiated s (snd (updatePlayer nearby 200 16 s)) = [(1, 6)].
Proof.
  intros s.
  assert (Hcool : onCooldown 200 (primed s) = false) by reflexivity.
  destruct (update_follows_key_priority nearby 200 16 s Hcool
              (openRoom_offWind _ 0 6 eq_refl) (openRoom_rowsAround _ 0 6 eq_refl))
    as [Hrun Hdest].
  split; [exact Hcool |]. split; [exact Hrun |].
  rewrite Hdest. vm_compute. reflexivity.
Defined.

Lemma passable_true_inBounds grid x y :
  passable grid x y = Normal true -> inBounds x y = true.
Proof.
  unfold passable. destruct (tileAt grid x y); [| discriminate].
  intros [= H]. apply andb_true_iff in H. apply H.
Qed.

Lemma movement_off_wind_neighbour time s :
  offWind s ->
  forall tw, tw ∈ initiated s (snd (movement time s)) ->
  Z.abs (destGridX tw - gridX (player s)) + Z.abs (destGridY tw - gridY (player s)) = 1.
Proof.
  intros (tile & Htile & H9 & H10) tw.
  unfold initiated, movement, windPush, bind, gets, modify, ret, setPlayerVelocity.
  simpl. rewrite readTile_tileAt. simpl. rewrite Htile, H9, H10. simpl.
  run_movement; rewrite ?drop_all, ?drop_app_length; intros Hin;
    first [ inversion Hin; fail
          | apply list_elem_of_singleton in Hin; subst tw; simpl; lia ].
Qed.

(** X3.  Off the wind tiles every tween an update starts leads to one of the
    four orthogonal neighbours of the player's cell, and that cell passed
    the passability predicate: it lies inside the bounds and its tile is
    not collidable. *)
Theorem update_off_wind_moves_one_checked_cell overlap time delta s :
  offWind s ->
  forall tw, tw ∈ initiated s (snd (updatePlayer overlap time delta s)) ->
  Z.abs (destGridX tw - gridX (player s)) + Z.abs (destGridY tw - gridY (player s)) = 1
  /\ fst (canMove (destGridX tw) (destGridY tw) s) = Normal true
  /\ inBounds (destGridX tw) (destGridY tw) = true.
Proof.
  intros Hoff tw. rewrite updatePlayer_initiated.
  destruct (onCooldown time (primed s)); [intros H; inversion H |].
  destruct (dungeonGrid s) eqn:Hg; [| intros H; inversion H].
  intros Hin.
  assert (Hcheck : fst (canMove (destGridX tw) (destGridY tw) s) = Normal true).
  { destruct Hoff as (tile & Htile & H9 & H10).
    rewrite canMove_passable. simpl.
    pose proof (movement_off_wind_is_checked time (primed s) tile) as H.
    rewrite readTile_tileAt in H. specialize (H Htile H9 H10 tw Hin).
    rewrite canMove_passable in H. exact H. }
  split; [apply (movement_off_wind_neighbour time (primed s)); assumption |].
  split; [exact Hcheck |].
  rewrite canMove_passable in Hcheck. apply (passable_true_inBounds _ _ _ Hcheck).
Qed.

Lemma update_off_wind_moves_one_checked_cell_witness :
  let s := standingAt 5 5 holdUp openRoom in
  let tw := mkTween (5 * TILE_SIZE) (4 * TILE_SIZE) NORMAL_MOVEMENT_DURATION 5 4 in
  tw ∈ initiated s (snd (updatePlayer nearby 200 16 s))
  /\ Z.abs (destGridX tw - 5) + Z.abs (destGridY tw - 5) = 1
  /\ fst (canMove (destGridX tw) (destGridY tw) s) = Normal true.
Proof.
  intros s tw.
  assert (Hin : tw ∈ initiated s (snd (updatePlayer nearby 200 16 s)))
    by (vm_compute; apply list_elem_of_here).
  destruct (update_off_wind_moves_one_checked_cell nearby 200 16 s
              (openRoom_offWind _ 5 5 eq_refl) tw Hin) as (Hn & Hc & _).
  split; [exact Hin |]. split; [exact Hn | exact Hc].
Defined.

Lemma movement_tween_shape time s tw :
  tw ∈ initiated s (snd (movement time s)) ->
  targetX tw = destGridX tw * TILE_SIZE
  /\ targetY tw = destGridY tw * TILE_SIZE
  /\ exists tile,
       tileAt (dungeonGrid s) (destGridX tw) (destGridY tw) = Normal tile
       /\ duration tw =
            if tileIs tile 12 then WATER_MOVEMENT_DURATION else NORMAL_MOVEMENT_DURATION.
Proof.
  run_movement; rewrite ?drop_all, ?drop_app_length; intros Hin;
    first [ inversion Hin; fail
          | apply list_elem_of_singleton in Hin; subst tw; simpl;
            split; [reflexivity |]; split; [reflexivity |];
            eexists; split; [eassumption | reflexivity] ].
Qed.

(** X4.  Every tween an update starts, pushed by the wind or not, targets
    the world position of its destination cell (48 units per cell) and lasts
    200 ms when the destination tile is water (12), 100 ms otherwise. *)
Theorem update_tween_shape overlap time delta s tw :
  tw ∈ initiated s (snd (updatePlayer overlap time delta s)) ->
  targetX tw = destGridX tw * TILE_SIZE
  /\ targetY tw = destGridY tw * TILE_SIZE
  /\ exists tile,
       tileAt (dungeonGrid s) (destGridX tw) (destGridY tw) = Normal tile
       /\ duration tw =
            if tileIs tile 12 then WATER_MOVEMENT_DURATION else NORMAL_MOVEMENT_DURATION.
Proof.
  rewrite updatePlayer_initiated.
  destruct (onCooldown time (primed s)); [intros H; inversion H |].
  destruct (dungeonGrid s) eqn:Hg; [| intros H; inversion H].
  intros Hin. apply (movement_tween_shape time (primed s) tw) in Hin.
  simpl in Hin. rewrite Hg in Hin. exact Hin.
Qed.

Lemma update_tween_shape_witness :
  let s := standingAt 11 6 holdRight corridorRoom in
  let tw := mkTween 624 288 100 13 6 in
  tw ∈ initiated s (snd (updatePlayer nearby 200 16 s))
  /\ targetX tw = destGridX tw * TILE_SIZE
  /\ targetY tw = destGridY tw * TILE_SIZE.
Proof.
  intros s tw.
  assert (Hin : tw ∈ initiated s (snd (updatePlayer nearby 200 16 s)))
    by (vm_compute; apply list_elem_of_here).
  destruct (update_tween_shape nearby 200 16 s tw Hin) as (Hx & Hy & _).
  split; [exact Hin |]. split; [exact Hx | exact Hy].
Defined.

Lemma movement_idle time s :
  cursors s = noInput -> offWind s ->
  movement time s = (Normal tt, withPlayer (setVelocity VZero) s).
Proof.
  intros Hc (tile & Htile & H9 & H10).
  destruct s as [c ? ? ? ? ? ? ? ? ? ? ? ? ? ? ?]. simpl in Hc. subst c.
  unfold movement, windPush, directionalInput, heldAndCanMove, startTween,
    bind, gets, modify, ret, setPlayerVelocity.
  simpl in *. rewrite readTile_tileAt. simpl. rewrite Htile, H9, H10. reflexivity.
Qed.

(** X5.  With no direction key held and the player off the wind tiles, an
    update starts no tween, does not restart the cooldown and completes;
    the player's velocity is zeroed when the update gets past its guards. *)
Theorem update_idle overlap time delta s :
  cursors s = noInput -> offWind s ->
  let s' := snd (updatePlayer overlap time delta s) in
  fst (updatePlayer overlap time delta s) = Normal tt
  /\ tweens s' = tweens s
  /\ lastMoveTime (gameState s') = lastMoveTime (gameState (primed s))
  /\ (onCooldown time (primed s) = false -> velocity (player s') = VZero).
Proof.
  intros Hc Hoff s'. subst s'.
  pose proof (movement_idle time (primed s) Hc Hoff) as Hm.
  rewrite updatePlayer_fst, updatePlayer_tweens, updatePlayer_lastMoveTime.
  destruct Hoff as (tile & Htile & _).
  destruct (dungeonGrid s) eqn:Hg; [| discriminate Htile].
  rewrite Hm.
  refine (conj _ (conj _ (conj _ _)));
    try (destruct (onCooldown time (primed s)); reflexivity).
  intros Hcool.
  rewrite (updatePlayer_proj (fun s0 => velocity (player s0))), Hcool, Hg, Hm.
  - reflexivity.
  - intros v. constructor; intros; assumption.
  - intros v. constructor; intros; assumption.
  - reflexivity.
Qed.

Lemma update_idle_witness :
  let s := withGameState (setLastMoveTime (Some 50))
             (withPlayer (setVelocity (VPolar Rot0 100)) (standingAt 5 5 noInput openRoom)) in
  let s' := snd (updatePlayer nearby 400 16 s) in
  cursors s = noInput
  /\ tweens s' = tweens s
  /\ lastMoveTime (gameState s') = Some 50
  /\ velocity (player s') = VZero.
Proof.
  intros s s'.
  destruct (update_idle nearby 400 16 s eq_refl (openRoom_offWind noInput 5 5 eq_refl))
    as (_ & Ht & Hl & Hv).
  split; [reflexivity |]. split; [exact Ht |]. split; [exact Hl |].
  apply Hv. reflexivity.
Defined.

(** X6.  An update never removes a pending tween and adds at most one.
    When it adds one, the cooldown had elapsed, the grid is present and
    [lastMoveTime] becomes the time of the frame; when it adds none,
    [lastMoveTime] is left alone (0 when it was undefined). *)
Theorem update_adds_at_most_one_tween overlap time delta s :
  let s' := snd (updatePlayer overlap time delta s) in
  (tweens s' = tweens s
   /\ lastMoveTime (gameState s') = Some (default 0 (lastMoveTime (gameState s))))
  \/ (exists tw,
         tweens s' = tweens s ++ [tw]
         /\ lastMoveTime (gameState s') = Some time
         /\ onCooldown time (primed s) = false
         /\ is_Some (dungeonGrid s)).
Proof.
  intros s'. subst s'.
  destruct (updatePlayer_moves overlap time delta s) as [[HT HL] | (Hcool & tw & HT & HL)].
  - left. split; [exact HT |]. rewrite HL.
    destruct s as [? ? [[t |] ? ? ? ? ? ? ? ?] ? ? ? ? ? ? ? ? ? ? ? ? ?]; reflexivity.
  - right. exists tw. split; [exact HT |]. split; [exact HL |]. split; [exact Hcool |].
    pose proof (updatePlayer_tweens overlap time delta s) as Ht.
    unfold primed in Ht. rewrite Hcool, HT in Ht.
    destruct (dungeonGrid s); [eauto |].
    exfalso. apply (f_equal length) in Ht. rewrite length_app in Ht. simpl in Ht. lia.
Qed.

Ltac run_movement_raise :=
  unfold movement, windPush, directionalInput, startTween, heldAndCanMove,
    setPlayerVelocity, bind, gets, modify, ret;
  simpl;
  repeat first
    [ progress (rewrite ?canMove_passable, ?readTile_tileAt; simpl)
    | match goal with
      | |- context [match passable ?g ?x ?y with _ => _ end] =>
          destruct (passable g x y) as [[|] |] eqn:?
      | |- context [match tileAt ?g ?x ?y with _ => _ end] =>
          destruct (tileAt g x y) eqn:?
      | |- context [if leftDown ?c then _ else _] => destruct (leftDown c)
      | |- context [if rightDown ?c then _ else _] => destruct (rightDown c)
      | |- context [if upDown ?c then _ else _] => destruct (upDown c)
      | |- context [if downDown ?c then _ else _] => destruct (downDown c)
      | |- context [if tileIs ?t 9 then _ else _] => destruct (tileIs t 9)
      | |- context [if tileIs ?t 10 then _ else _] => destruct (tileIs t 10)
      end; simpl ].

Lemma movement_raise time s e :
  fst (movement time s) = Throw e ->
  exists v, snd (movement time s) = withPlayer (setVelocity v) s.
Proof.
  run_movement_raise; intros H; first [discriminate H | eexists; reflexivity].
Qed.

(** X7.  When an update raises, the exception is a TypeError of a grid
    read, and the scene is the one before the call except for the
    initialised [lastMoveTime] and the player's velocity: no tween was
    started, the key pickup and the resolver did not run. *)
Theorem update_raise_leaves_scene overlap time delta s e :
  fst (updatePlayer overlap time delta s) = Throw e ->
  e = TypeError
  /\ exists v, snd (updatePlayer overlap time delta s)
               = withPlayer (setVelocity v) (primed s).
Proof.
  intros H. split; [destruct e; reflexivity |].
  revert H. unfold updatePlayer, bind, modify, gets. simpl. fold (primed s).
  destruct (onCooldown time (primed s)); [discriminate |]. simpl.
  destruct (dungeonGrid s); [| discriminate]. simpl.
  pose proof (movement_raise time (primed s)) as Hm.
  destruct (movement time (primed s)) as [[[] | e'] sm]; simpl in *; [discriminate |].
  intros _. apply (Hm e' eq_refl).
Qed.

Lemma update_raise_leaves_scene_witness :
  let s := standingAt 10 0 holdUp openRoom in
  fst (updatePlayer nearby 200 16 s) = Throw TypeError
  /\ exists v, snd (updatePlayer nearby 200 16 s) = withPlayer (setVelocity v) (primed s).
Proof.
  intros s.
  assert (H : fst (updatePlayer nearby 200 16 s) = Throw TypeError)
    by (vm_compute; reflexivity).
  split; [exact H |].
  exact (proj2 (update_raise_leaves_scene nearby 200 16 s TypeError H)).
Defined.

Lemma movement_ignores_speed_boost time s b :
  let sb := withGameState (setSpeedBoostTimer b) s in
  fst (movement time sb) = fst (movement time s)
  /\ tweens (snd (movement time sb)) = tweens (snd (movement time s))
  /\ lastMoveTime (gameState (snd (movement time sb)))
     = lastMoveTime (gameState (snd (movement time s))).
Proof.
  intros sb. subst sb.
  run_movement_raise; repeat split.
Qed.

(** X8.  The speed-boost timer changes neither whether an update completes,
    nor the tween it starts (destination, target and duration), nor the
    cooldown stamp: the boost only reaches the player's velocity. *)
Theorem speed_boost_does_not_change_the_move overlap time delta s b :
  let sb := withGameState (setSpeedBoostTimer b) s in
  fst (updatePlayer overlap time delta sb) = fst (updatePlayer overlap time delta s)
  /\ tweens (snd (updatePlayer overlap time delta sb))
     = tweens (snd (updatePlayer overlap time delta s))
  /\ lastMoveTime (gameState (snd (updatePlayer overlap time delta sb)))
     = lastMoveTime (gameState (snd (updatePlayer overlap time delta s))).
Proof.
  intros sb.
  rewrite !updatePlayer_fst, !updatePlayer_tweens, !updatePlayer_lastMoveTime.
  assert (Hp : primed sb = withGameState (setSpeedBoostTimer b) (primed s)).
  { destruct s as [? ? [[t |] ? ? ? ? ? ? ? ?] ? ? ? ? ? ? ? ? ? ? ? ? ?]; reflexivity. }
  assert (Hcool : onCooldown time (primed sb) = onCooldown time (primed s)).
  { rewrite Hp. reflexivity. }
  rewrite Hcool. change (dungeonGrid sb) with (dungeonGrid s).
  change (tweens sb) with (tweens s).
  destruct (onCooldown time (primed s)).
  - rewrite Hp. repeat split.
  - destruct (dungeonGrid s); [| rewrite Hp; repeat split].
    rewrite Hp. apply movement_ignores_speed_boost.
Qed.

Lemma updatePlayer_restingParts overlap time delta s :
  restingParts (snd (updatePlayer overlap time delta s)) = restingParts s.
Proof.
  set (P := fun s' : Scene => restingParts s' = restingParts s).
  apply (preserves_updatePlayer overlap P time delta); try reflexivity.
  - constructor; [intros s' v H | intros s' tw H | intros s' t H]; exact H.
  - constructor; intros; assumption.
  - constructor; intros; assumption.
  - intros s' msg H. exact H.
Qed.

(** X9.  An update never writes the player's cell or world position, the
    grid, the text overlay, the power-up pickups, the score or the three
    power-up timers, whether it completes or raises: the cell changes only
    when a tween completes, and the timers are not counted down here. *)
Theorem update_leaves_resting_parts overlap time delta s :
  restingParts (snd (updatePlayer overlap time delta s)) = restingParts s.
Proof. apply updatePlayer_restingParts. Qed.

(** ** Further properties of the tile resolver *)

Ltac arrival_step HP Hw :=
  first
    [ apply Hw
    | apply preserves_clearDungeonText; intros ? ?; apply (ab_texts _ HP)
    | apply preserves_removePowerUpSprite; intros ? ?; apply (ab_sprites _ HP)
    | apply preserves_checkOver; intros ?; apply (ab_over _ HP)
    | apply preserves_modify; intros ? ?;
      first [ eapply (ab_health _ HP); eassumption
            | eapply (ab_score _ HP); eassumption
            | eapply (ab_shield _ HP); eassumption
            | eapply (ab_triple _ HP); eassumption
            | eapply (ab_speed _ HP); eassumption
            | eapply (ab_slow _ HP); eassumption
            | eapply (ab_text _ HP); eassumption ]
    | js_step ].

Lemma applyPowerUp_arrivalBlind P tile x y :
  arrivalBlind P -> preserves P (writeTile x y 0) -> preserves P (applyPowerUp tile x y).
Proof.
  intros HP Hw. unfold applyPowerUp.
  repeat arrival_step HP Hw.
  apply preserves_modify. intros s H.
  apply ensureShieldSprite_blind; [apply (ab_shieldSprite _ HP) | exact H].
Qed.

Lemma handleTileInteraction_arrivalBlind P x y :
  arrivalBlind P -> preserves P (writeTile x y 0) ->
  preserves P (handleTileInteraction x y).
Proof.
  intros HP Hw. unfold handleTileInteraction.
  repeat first [ apply applyPowerUp_arrivalBlind; [exact HP | exact Hw]
               | arrival_step HP Hw ].
Qed.

Lemma writeTile_gridBlind (P : Scene -> Prop) x y v :
  (forall s g, P s -> P (setDungeonGrid g s)) -> preserves P (writeTile x y v).
Proof. apply preserves_writeTile. Qed.

(** X10.  Completing a tween pops the oldest pending tween, commits the
    player to the cell that tween captured and snaps the world position to
    48 times the cell, also when the tile interaction then raises; the tile
    interaction itself touches neither the player nor the other pending
    tweens. *)
Theorem tween_completion_commits s tw rest :
  tweens s = tw :: rest ->
  let s' := snd (completeTween s) in
  tweens s' = rest
  /\ gridX (player s') = destGridX tw /\ gridY (player s') = destGridY tw
  /\ px (player s') = destGridX tw * TILE_SIZE
  /\ py (player s') = destGridY tw * TILE_SIZE
  /\ velocity (player s') = velocity (player s)
  /\ shieldAngle (player s') = shieldAngle (player s).
Proof.
  intros Htw s'. subst s'.
  unfold completeTween, onComplete, bind, gets, modify. simpl. rewrite Htw. simpl.
  set (s1 := withPlayer (commitCell (destGridX tw) (destGridY tw)) (setTweens rest s)).
  set (P := fun s' : Scene => tweens s' = rest /\ player s' = player s1).
  assert (HP : arrivalBlind P) by (constructor; intros; assumption).
  assert (Hw : forall x y, preserves P (writeTile x y 0))
    by (intros x y; apply writeTile_gridBlind; intros; assumption).
  pose proof (handleTileInteraction_arrivalBlind P (destGridX tw) (destGridY tw) HP
                (Hw _ _) s1 (conj eq_refl eq_refl)) as [Ht Hp].
  destruct (handleTileInteraction (destGridX tw) (destGridY tw) s1) as [[[] | e] s2];
    simpl in *; rewrite Ht, Hp; repeat split.
Qed.

Lemma tween_completion_commits_witness :
  let s := snd (updatePlayer nearby 200 16 (spikeStart 15)) in
  let tw := mkTween 528 288 100 11 6 in
  tweens s = [tw]
  /\ tweens (snd (completeTween s)) = []
  /\ gridX (player (snd (completeTween s))) = 11
  /\ px (player (snd (completeTween s))) = 11 * TILE_SIZE.
Proof.
  intros s tw.
  assert (H : tweens s = [tw]) by (vm_compute; reflexivity).
  destruct (tween_completion_commits s tw [] H) as (Ht & Hx & _ & Hpx & _).
  split; [exact H |]. split; [exact Ht |]. split; [exact Hx | exact Hpx].
Defined.

Lemma completeTween_bystanders s :
  bystanders (snd (completeTween s)) = bystanders s.
Proof.
  set (P := fun s' : Scene => bystanders s' = bystanders s).
  assert (HP : arrivalBlind P) by (constructor; intros; assumption).
  assert (Hp : preserves P completeTween); [| exact (Hp s eq_refl)].
  unfold completeTween.
  apply preserves_bind; [apply preserves_gets | intros tws].
  destruct tws as [| tw rest]; [apply preserves_ret |].
  apply preserves_bind; [apply preserves_modify; intros s' H; exact H | intros _].
  unfold onComplete.
  apply preserves_bind; [apply preserves_modify; intros s' H; exact H | intros _].
  apply handleTileInteraction_arrivalBlind; [exact HP |].
  apply writeTile_gridBlind. intros s' g H. exact H.
Qed.

(** X11.  A tween completion never writes the input state, the enemies and
    projectiles, the key and the key flag, [lastMoveTime], the ability
    charge, the player's velocity and shield phase, or the console, whether
    it completes or raises. *)
Theorem tween_completion_leaves_bystanders s :
  bystanders (snd (completeTween s)) = bystanders s.
Proof. apply completeTween_bystanders. Qed.

Lemma tileAt_cleared g row x y x' y' :
  g !! y = Some row ->
  tileAt (Some (<[y := <[x := 0]> row]> g)) x' y' =
    if bool_decide (x' = x /\ y' = y) then Normal (Some 0) else tileAt (Some g) x' y'.
Proof.
  intros Hrow. unfold tileAt.
  destruct (decide (y' = y)) as [-> | Hy].
  - rewrite lookup_insert_eq, Hrow.
    destruct (decide (x' = x)) as [-> | Hx].
    + rewrite lookup_insert_eq, bool_decide_eq_true_2 by auto. reflexivity.
    + rewrite lookup_insert_ne by congruence.
      rewrite bool_decide_eq_false_2 by (intros [? ?]; congruence). reflexivity.
  - rewrite lookup_insert_ne by congruence.
    rewrite bool_decide_eq_false_2 by (intros [? ?]; congruence). reflexivity.
Qed.

(** The grid after a step that could only clear the cell (x, y). *)
Lemma writeTile_keeps_cleared s x y :
  let P := fun s' : Scene =>
    dungeonGrid s' = dungeonGrid s
    \/ exists g row, dungeonGrid s = Some g /\ g !! y = Some row
                     /\ dungeonGrid s' = Some (<[y := <[x := 0]> row]> g) in
  preserves P (writeTile x y 0).
Proof.
  intros P s' [Hsame | (g & row & Hg & Hrow & Hs')]; unfold writeTile, P.
  - destruct (dungeonGrid s') as [g |] eqn:Hg'; [| left; simpl; congruence].
    destruct (g !! y) as [row |] eqn:Hrow; [| left; simpl; congruence].
    right. exists g, row. simpl. repeat split; congruence.
  - rewrite Hs', lookup_insert_eq. simpl. right. exists g, row.
    rewrite !insert_insert_eq. auto.
Qed.

Lemma handleTileInteraction_grid s x y :
  dungeonGrid (snd (handleTileInteraction x y s)) = dungeonGrid s
  \/ exists g row t,
       dungeonGrid s = Some g /\ g !! y = Some row /\ row !! x = Some t
       /\ consumable t = true
       /\ dungeonGrid (snd (handleTileInteraction x y s))
          = Some (<[y := <[x := 0]> row]> g).
Proof.
  set (P := fun s' : Scene =>
    dungeonGrid s' = dungeonGrid s
    \/ exists g row, dungeonGrid s = Some g /\ g !! y = Some row
                     /\ dungeonGrid s' = Some (<[y := <[x := 0]> row]> g)).
  assert (HP : arrivalBlind P) by (constructor; intros; assumption).
  pose proof (handleTileInteraction_arrivalBlind P x y HP (writeTile_keeps_cleared s x y) s
                (or_introl eq_refl)) as Hgen.
  assert (Hquiet : forall tile,
             tileAt (dungeonGrid s) x y = tile ->
             match tile with Normal (Some t) => consumable t = false | _ => True end ->
             dungeonGrid (snd (handleTileInteraction x y s)) = dungeonGrid s).
  { intros tile Htile Hno. unfold handleTileInteraction, bind.
    rewrite readTile_tileAt, Htile.
    destruct tile as [[t |] | e]; [| reflexivity | reflexivity].
    unfold consumable in Hno. apply orb_false_iff in Hno as [H6 Hpow].
    unfold isPowerUp. simpl. rewrite H6, Hpow.
    destruct ((t =? 5) || (t =? 8)); [| reflexivity].
    unfold checkOver, bind, modify, gets. simpl.
    destruct (playerHealth (gameState s) - 20 <=? 0); reflexivity. }
  destruct (tileAt (dungeonGrid s) x y) as [[t |] | e] eqn:Htile;
    [| left; apply (Hquiet _ eq_refl I) | left; apply (Hquiet _ eq_refl I)].
  destruct (consumable t) eqn:Hc; [| left; apply (Hquiet _ eq_refl Hc)].
  destruct Hgen as [Hsame | (g & row & Hg & Hrow & Hs')]; [left; exact Hsame |].
  right. exists g, row, t. repeat split; try assumption.
  rewrite Hg in Htile. unfold tileAt in Htile. rewrite Hrow in Htile. congruence.
Qed.

(** X12.  A tile arrival changes the grid in one way only: it clears the
    arrival cell to floor (0) when that cell holds the treasure (6) or a
    power-up (19 to 23).  Every other cell, and the arrival cell of any
    other tile, reads as before, also when the arrival raises. *)
Theorem arrival_only_clears_its_consumable s x y x' y' :
  let grid' := dungeonGrid (snd (handleTileInteraction x y s)) in
  tileAt grid' x' y' = tileAt (dungeonGrid s) x' y'
  \/ (x' = x /\ y' = y
      /\ tileAt grid' x y = Normal (Some 0)
      /\ exists t, tileAt (dungeonGrid s) x y = Normal (Some t) /\ consumable t = true).
Proof.
  intros grid'. subst grid'.
  destruct (handleTileInteraction_grid s x y)
    as [-> | (g & row & t & Hg & Hrow & Ht & Hc & ->)]; [left; reflexivity |].
  rewrite Hg, !(tileAt_cleared g row x y) by exact Hrow.
  destruct (bool_decide (x' = x /\ y' = y)) eqn:Hxy; [| left; reflexivity].
  apply bool_decide_eq_true in Hxy as [-> ->]. right.
  rewrite bool_decide_eq_true_2 by auto. repeat split.
  exists t. split; [| exact Hc]. unfold tileAt. rewrite Hrow, Ht. reflexivity.
Qed.

Lemma handleTileInteraction_quiet s x y tile :
  tileAt (dungeonGrid s) x y = Normal tile ->
  match tile with Some t => negb ((t =? 5) || (t =? 8)) && negb (consumable t) | None => true end
  = true ->
  handleTileInteraction x y s = (Normal tt, s).
Proof.
  intros Htile Hq. unfold handleTileInteraction, bind. rewrite readTile_tileAt, Htile.
  destruct tile as [t |]; [| reflexivity].
  apply andb_true_iff in Hq as [Hh Hc]. apply negb_true_iff in Hh, Hc.
  unfold consumable in Hc. apply orb_false_iff in Hc as [H6 Hpow].
  unfold isPowerUp. simpl. rewrite Hh, H6, Hpow. reflexivity.
Qed.

Lemma applyPowerUp_clears tile x y s g row :
  dungeonGrid s = Some g -> g !! y = Some row ->
  is_Some (dungeonTexts s !! (y * GRID_WIDTH + x)) ->
  let s1 := snd (applyPowerUp tile x y s) in
  fst (applyPowerUp tile x y s) = Normal tt
  /\ dungeonGrid s1 = Some (<[y := <[x := 0]> row]> g)
  /\ dungeonTexts s1
     = <[y * GRID_WIDTH + x := mkDungeonText "." "#666"]> (dungeonTexts s).
Proof.
  intros Hg Hrow [txt Htxt].
  unfold applyPowerUp, removePowerUpSprite, writeTile, clearDungeonText,
    ensureShieldSprite, bind, modify, gets, ret.
  simpl. rewrite Hg, Hrow. simpl. rewrite Htxt. simpl.
  destruct (List.find (atCell x y) (powerUpSprites s)); simpl;
    repeat match goal with |- context [if ?b then _ else _] => destruct b; simpl end;
    try (destruct (shieldSprite s); simpl); repeat split.
Qed.

(** X13.  Arriving on a treasure or a power-up whose row and overlay text
    exist completes, clears the cell to floor and sets its overlay glyph to
    a dot; the treasure adds 50 to the score.  A second arrival on the same
    cell changes nothing: a consumable is collected once. *)
Theorem consumable_is_collected_once s x y t :
  cellReady x y s ->
  tileAt (dungeonGrid s) x y = Normal (Some t) ->
  consumable t = true ->
  let s1 := snd (handleTileInteraction x y s) in
  fst (handleTileInteraction x y s) = Normal tt
  /\ tileAt (dungeonGrid s1) x y = Normal (Some 0)
  /\ dungeonTexts s1 !! (y * GRID_WIDTH + x) = Some (mkDungeonText "." "#666")
  /\ (t = 6 -> score (gameState s1) = score (gameState s) + 50)
  /\ handleTileInteraction x y s1 = (Normal tt, s1).
Proof.
  intros [(g & row & Hg & Hrow) Htxt] Htile Hc s1.
  assert (Hcore : fst (handleTileInteraction x y s) = Normal tt
                  /\ dungeonGrid s1 = Some (<[y := <[x := 0]> row]> g)
                  /\ dungeonTexts s1
                     = <[y * GRID_WIDTH + x := mkDungeonText "." "#666"]> (dungeonTexts s)
                  /\ (t = 6 -> score (gameState s1) = score (gameState s) + 50)).
  { subst s1. unfold handleTileInteraction, bind. rewrite readTile_tileAt, Htile.
    unfold consumable in Hc. simpl.
    destruct (Z.eqb_spec t 6) as [-> | H6].
    - simpl. destruct Htxt as [txt Htxt].
      unfold writeTile, clearDungeonText, bind, modify, gets. simpl.
      rewrite Hg, Hrow. simpl. rewrite Htxt. simpl. repeat split.
    - simpl in Hc.
      assert (Hh : (t =? 5) || (t =? 8) = false).
      { apply andb_true_iff in Hc as [Hlo _]. apply Z.leb_le in Hlo.
        apply orb_false_iff. split; apply Z.eqb_neq; lia. }
      rewrite Hh. unfold isPowerUp. rewrite Hc.
      destruct (applyPowerUp_clears t x y s g row Hg Hrow Htxt) as (Hrun & Hgrid & Htexts).
      repeat split; try assumption. intros ->. congruence. }
  destruct Hcore as (Hrun & Hgrid & Htexts & Hscore).
  assert (Hzero : tileAt (dungeonGrid s1) x y = Normal (Some 0)).
  { rewrite Hgrid, (tileAt_cleared g row x y) by exact Hrow.
    rewrite bool_decide_eq_true_2 by auto. reflexivity. }
  refine (conj Hrun (conj Hzero (conj _ (conj Hscore _)))).
  - rewrite Htexts. apply lookup_insert_eq.
  - apply (handleTileInteraction_quiet s1 x y (Some 0) Hzero). reflexivity.
Qed.

Lemma consumable_is_collected_once_witness :
  let rows := replicate 6 floorRow ++ [replicate 11 0 ++ [6] ++ replicate 8 0]
              ++ replicate 5 floorRow in
  let s := sceneIn rows in
  let s1 := snd (handleTileInteraction 11 6 s) in
  cellReady 11 6 s
  /\ tileAt (dungeonGrid s) 11 6 = Normal (Some 6)
  /\ tileAt (dungeonGrid s1) 11 6 = Normal (Some 0)
  /\ score (gameState s1) = score (gameState s) + 50
  /\ handleTileInteraction 11 6 s1 = (Normal tt, s1).
Proof.
  intros rows s s1.
  assert (Hready : cellReady 11 6 s) by (apply (sceneIn_cellReady rows 11 6); reflexivity).
  assert (Htile : tileAt (dungeonGrid s) 11 6 = Normal (Some 6)) by (vm_compute; reflexivity).
  destruct (consumable_is_collected_once s 11 6 6 Hready Htile eq_refl)
    as (_ & Hzero & _ & Hscore & Hagain).
  split; [exact Hready |]. split; [exact Htile |]. split; [exact Hzero |].
  split; [apply Hscore; reflexivity | exact Hagain].
Defined.

(** ** Further properties of the power-up applier *)

Lemma NoDup_fmap_elem {A B} (f : A -> B) (l : list A) (a b : A) :
  NoDup (f <$> l) -> a ∈ l -> b ∈ l -> f a = f b -> a = b.
Proof.
  intros Hnd Ha Hb Hf.
  apply list_elem_of_lookup in Ha as [i Hi]. apply list_elem_of_lookup in Hb as [j Hj].
  assert (Hij : i = j).
  { apply (NoDup_lookup (f <$> l) i j (f a)); [exact Hnd | |].
    - rewrite list_lookup_fmap, Hi. reflexivity.
    - rewrite list_lookup_fmap, Hj, Hf. reflexivity. }
  subst j. congruence.
Qed.

Lemma applyPowerUp_sprites tile x y s :
  cellReady x y s ->
  powerUpSprites (snd (applyPowerUp tile x y s)) =
    match List.find (atCell x y) (powerUpSprites s) with
    | Some sp => List.filter (isNot sp) (powerUpSprites s)
    | None => powerUpSprites s
    end.
Proof.
  intros [(g & row & Hg & Hrow) [txt Htxt]].
  unfold applyPowerUp, removePowerUpSprite, writeTile, clearDungeonText,
    ensureShieldSprite, bind, modify, gets, ret.
  simpl. rewrite Hg, Hrow. simpl. rewrite Htxt. simpl.
  destruct (List.find (atCell x y) (powerUpSprites s)); simpl;
    repeat match goal with |- context [if ?b then _ else _] => destruct b; simpl end;
    try (destruct (shieldSprite s); simpl); reflexivity.
Qed.

(** X14.  When the pickups have distinct identities, applying a power-up at
    a cell that can be cleared removes from the pickup collection exactly
    the first pickup anchored at that cell and no other; with no pickup
    anchored there the collection is left as it is. *)
Theorem power_up_removes_first_pickup_at_cell tile x y s :
  cellReady x y s ->
  NoDup (sid <$> powerUpSprites s) ->
  forall sp,
    sp ∈ powerUpSprites (snd (applyPowerUp tile x y s))
    <-> sp ∈ powerUpSprites s /\ List.find (atCell x y) (powerUpSprites s) <> Some sp.
Proof.
  intros Hready Hnd sp. rewrite (applyPowerUp_sprites tile x y s Hready).
  destruct (List.find (atCell x y) (powerUpSprites s)) as [first |] eqn:Hfind.
  - apply find_some in Hfind as [Hin _]. apply list_elem_of_In in Hin.
    rewrite list_elem_of_In, filter_In, <- list_elem_of_In.
    unfold isNot. rewrite negb_true_iff, Nat.eqb_neq.
    split; intros [Hsp Hne]; (split; [exact Hsp |]).
    + intros [= ->]. apply Hne. reflexivity.
    + intros Hid. apply Hne. f_equal. symmetry.
      apply (NoDup_fmap_elem sid (powerUpSprites s)); assumption.
  - split; [intros H; split; [exact H | discriminate] | intros [H _]; exact H].
Qed.

Lemma power_up_removes_first_pickup_at_cell_witness :
  let pickups := [mkPowerUpSprite 1 3 4; mkPowerUpSprite 2 7 8; mkPowerUpSprite 3 7 8] in
  let s := setPowerUpSprites pickups (sceneIn openRoom) in
  cellReady 7 8 s
  /\ NoDup (sid <$> powerUpSprites s)
  /\ (mkPowerUpSprite 3 7 8 ∈ powerUpSprites (snd (applyPowerUp 20 7 8 s))
      <-> mkPowerUpSprite 3 7 8 ∈ powerUpSprites s
          /\ List.find (atCell 7 8) (powerUpSprites s) <> Some (mkPowerUpSprite 3 7 8)).
Proof.
  intros pickups s.
  assert (Hready : cellReady 7 8 s) by (apply (sceneIn_cellReady openRoom 7 8); reflexivity).
  assert (Hnd : NoDup (sid <$> powerUpSprites s)).
  { simpl. repeat (apply NoDup_cons; split; [rewrite ?elem_of_cons, elem_of_nil; lia |]).
    apply NoDup_nil_2. }
  split; [exact Hready |]. split; [exact Hnd |].
  apply (power_up_removes_first_pickup_at_cell 20 7 8 s Hready Hnd).
Defined.

(** ** Further properties of the key pickup *)

Lemma updatePlayer_reaches overlap time delta s sm :
  onCooldown time (primed s) = false -> is_Some (dungeonGrid s) ->
  movement time (primed s) = (Normal tt, sm) ->
  snd (updatePlayer overlap time delta s)
  = updateShieldAndCollisions overlap delta (keyPickup overlap sm).
Proof.
  intros Hcool [g Hg] Hm. unfold updatePlayer, bind, modify, gets. simpl.
  fold (primed s). rewrite Hcool. simpl. rewrite Hg. simpl. rewrite Hm. reflexivity.
Qed.

Lemma movement_keeps_pickup_inputs time s :
  let sm := snd (movement time s) in
  key sm = key s /\ hasKey (gameState sm) = hasKey (gameState s)
  /\ texts sm = texts s
  /\ px (player sm) = px (player s) /\ py (player sm) = py (player s).
Proof.
  set (P := fun s' : Scene =>
    key s' = key s /\ hasKey (gameState s') = hasKey (gameState s)
    /\ texts s' = texts s
    /\ px (player s') = px (player s) /\ py (player s') = py (player s)).
  assert (HP : movementBlind P)
    by (constructor; [intros s' v H | intros s' tw H | intros s' t H]; exact H).
  apply (preserves_movement P time HP s). repeat split.
Qed.

Lemma resolver_keeps_key overlap delta s :
  let s' := updateShieldAndCollisions overlap delta s in
  key s' = key s /\ hasKey (gameState s') = hasKey (gameState s).
Proof.
  set (P := fun s' : Scene => key s' = key s /\ hasKey (gameState s') = hasKey (gameState s)).
  assert (HP : resolverBlind P) by (constructor; intros; assumption).
  apply (updateShieldAndCollisions_blind overlap P delta s HP). split; reflexivity.
Qed.

(** X15.  On a completing update past the cooldown with the grid present,
    a key that overlaps the player is picked up: the key flag is set and the
    key is removed from the scene.  The pickup does not need a move and does
    not start one. *)
Theorem key_overlap_picks_up_key overlap time delta s k :
  onCooldown time (primed s) = false ->
  is_Some (dungeonGrid s) ->
  fst (updatePlayer overlap time delta s) = Normal tt ->
  key s = Some k ->
  overlap (px (player s)) (py (player s)) k = true ->
  let s' := snd (updatePlayer overlap time delta s) in
  hasKey (gameState s') = true /\ key s' = None.
Proof.
  intros Hcool Hgrid Hrun Hkey Hover s'. subst s'.
  rewrite updatePlayer_fst, Hcool in Hrun. destruct Hgrid as [g Hg]. rewrite Hg in Hrun.
  pose proof (movement_keeps_pickup_inputs time (primed s)) as (Hk & _ & _ & Hx & Hy).
  destruct (movement time (primed s)) as [c sm] eqn:Hm. simpl in *. subst c.
  rewrite (updatePlayer_reaches overlap time delta s sm Hcool (ex_intro _ g Hg) Hm).
  destruct (resolver_keeps_key overlap delta (keyPickup overlap sm)) as [-> ->].
  unfold keyPickup, playerOverlaps. rewrite Hk, Hkey, Hx, Hy, Hover. split; reflexivity.
Qed.

Lemma key_overlap_picks_up_key_witness :
  let s := setKey (Some (mkSprite 470 300)) (sceneIn openRoom) in
  let s' := snd (updatePlayer nearby 200 16 s) in
  key s = Some (mkSprite 470 300)
  /\ nearby (px (player s)) (py (player s)) (mkSprite 470 300) = true
  /\ hasKey (gameState s') = true /\ key s' = None /\ tweens s' = [].
Proof.
  intros s s'.
  destruct (key_overlap_picks_up_key nearby 200 16 s (mkSprite 470 300)
              eq_refl (ex_intro _ _ eq_refl) eq_refl eq_refl eq_refl) as [Hflag Hgone].
  split; [reflexivity |]. split; [reflexivity |].
  split; [exact Hflag |]. split; [exact Hgone | reflexivity].
Defined.

Lemma updatePlayer_key_flag overlap time delta s :
  let s' := snd (updatePlayer overlap time delta s) in
  (hasKey (gameState s) = true -> hasKey (gameState s') = true)
  /\ (key s = None -> key s' = None /\ hasKey (gameState s') = hasKey (gameState s)).
Proof.
  intros s'. subst s'.
  assert (Hpick : forall sm, (hasKey (gameState sm) = true ->
                              hasKey (gameState (keyPickup overlap sm)) = true)
                             /\ (key sm = None -> keyPickup overlap sm = sm)).
  { intros sm. unfold keyPickup. destruct (key sm) as [k |]; [| auto].
    destruct (playerOverlaps overlap (player sm) k); split; auto; discriminate. }
  assert (Hinit : hasKey (gameState (primed s)) = hasKey (gameState s)).
  { destruct s as [? ? [[t |] ? ? ? ? ? ? ? ?] ? ? ? ? ? ? ? ? ? ? ? ? ?]; reflexivity. }
  rewrite <- Hinit. change (key s) with (key (primed s)).
  unfold updatePlayer, bind, modify, gets. simpl. fold (primed s).
  destruct (onCooldown time (primed s)); simpl; [split; auto |].
  destruct (dungeonGrid s); simpl; [| split; auto].
  pose proof (movement_keeps_pickup_inputs time (primed s)) as (Hk & Hh & _).
  destruct (movement time (primed s)) as [[[] | e] sm]; simpl in *.
  - destruct (resolver_keeps_key overlap delta (keyPickup overlap sm)) as [-> ->].
    destruct (Hpick sm) as [Hset Hnone]. split.
    + intros H. apply Hset. congruence.
    + intros H. rewrite Hnone by congruence. split; congruence.
  - split; [congruence | intros H; split; congruence].
Qed.

(** X16.  No update resets the key flag or brings a picked-up key back: a
    set flag stays set and an absent key stays absent, whether the update
    completes or raises; without a key in the scene the flag is left as it
    is. *)
Theorem update_never_resets_key overlap time delta s :
  let s' := snd (updatePlayer overlap time delta s) in
  (hasKey (gameState s) = true -> hasKey (gameState s') = true)
  /\ (key s = None -> key s' = None /\ hasKey (gameState s') = hasKey (gameState s)).
Proof. apply updatePlayer_key_flag. Qed.

Lemma update_never_resets_key_witness :
  let s := withGameState (setHasKey true) (setCursors holdRight (sceneIn openRoom)) in
  let s' := snd (updatePlayer nearby 200 16 s) in
  hasKey (gameState s) = true /\ key s = None
  /\ hasKey (gameState s') = true /\ key s' = None.
Proof.
  intros s s'.
  destruct (update_never_resets_key nearby 200 16 s) as [Hset Hnone].
  split; [reflexivity |]. split; [reflexivity |].
  split; [apply Hset; reflexivity | apply (Hnone eq_refl)].
Defined.

(** ** Further properties of the shield and collision resolver *)

Section Collisions.

Variable overlap : Z -> Z -> Sprite -> bool.

Lemma hitCount_player s s' es :
  player s' = player s -> hitCount overlap s' es = hitCount overlap s es.
Proof.
  intros Hp. unfold hitCount. f_equal. f_equal.
  apply filter_ext. intros e. apply hits_player, Hp.
Qed.

Lemma resolveEnemy_accounting s e :
  0 <= shieldHP (gameState s) ->
  let k := if hits overlap s e then 1 else 0 in
  let s' := resolveEnemy overlap s e in
  shieldHP (gameState s') = Z.max (shieldHP (gameState s) - k) 0
  /\ playerHealth (gameState s')
     = playerHealth (gameState s) - 10 * Z.max (k - shieldHP (gameState s)) 0.
Proof.
  intros Hpos. unfold resolveEnemy. destruct (hits overlap s e); simpl; [| lia].
  destruct (Z.ltb_spec 0 (shieldHP (gameState s))) as [Hlt | Hle]; simpl.
  - match goal with |- context [if ?b then _ else _] => destruct b end; simpl; lia.
  - destruct (playerHealth (gameState s) - 10 <=? 0); simpl; lia.
Qed.

Lemma fold_resolveEnemy_accounting es s :
  0 <= shieldHP (gameState s) ->
  let k := hitCount overlap s es in
  let s' := fold_left (resolveEnemy overlap) es s in
  shieldHP (gameState s') = Z.max (shieldHP (gameState s) - k) 0
  /\ playerHealth (gameState s')
     = playerHealth (gameState s) - 10 * Z.max (k - shieldHP (gameState s)) 0.
Proof.
  revert s. induction es as [| e es IH]; intros s Hpos; simpl.
  - unfold hitCount. simpl. lia.
  - destruct (resolveEnemy_accounting s e Hpos) as [Hsh Hhp].
    set (s1 := resolveEnemy overlap s e) in *.
    destruct (IH s1 ltac:(lia)) as [IHsh IHhp].
    rewrite (hitCount_player s s1) in IHsh, IHhp by apply resolveEnemy_player.
    rewrite IHsh, IHhp, Hsh, Hhp.
    unfold hitCount. simpl. destruct (hits overlap s e); simpl length; lia.
Qed.

Lemma updateShieldAndCollisions_accounting delta s :
  0 <= shieldHP (gameState s) ->
  let k := hitCount overlap s (enemies s) in
  let s' := updateShieldAndCollisions overlap delta s in
  shieldHP (gameState s') = Z.max (shieldHP (gameState s) - k) 0
  /\ playerHealth (gameState s')
     = playerHealth (gameState s) - 10 * Z.max (k - shieldHP (gameState s)) 0.
Proof.
  intros Hpos k s'. subst k s'. unfold updateShieldAndCollisions, resolveCollisions.
  set (sv := shieldVisual delta s).
  assert (Hfight : sameFight s sv) by apply shieldVisual_sameFight.
  assert (Hstate : shieldHP (gameState sv) = shieldHP (gameState s)
                   /\ playerHealth (gameState sv) = playerHealth (gameState s)).
  { subst sv. unfold shieldVisual, ensureShieldSprite.
    destruct (0 <? shieldHP (gameState s)); destruct (shieldSprite s); split; reflexivity. }
  destruct Hstate as [Hsh Hhp]. destruct Hfight as (He & Hx & Hy).
  assert (Hk : hitCount overlap sv (enemies sv) = hitCount overlap s (enemies s)).
  { rewrite He. unfold hitCount. f_equal. f_equal. apply filter_ext. intros e.
    unfold hits, playerOverlaps. rewrite Hx, Hy. reflexivity. }
  destruct (fold_resolveEnemy_accounting (enemies sv) sv ltac:(lia)) as [Fsh Fhp].
  rewrite Hk, Hsh in Fsh. rewrite Hk, Hsh, Hhp in Fhp.
  set (sf := fold_left (resolveEnemy overlap) (enemies sv) sv) in *.
  assert (Hgate : shieldHP (gameState (abilityGate sf)) = shieldHP (gameState sf)
                  /\ playerHealth (gameState (abilityGate sf)) = playerHealth (gameState sf)).
  { unfold abilityGate, JustDown.
    match goal with |- context [if ?b then _ else _] => destruct b end; split; reflexivity. }
  destruct Hgate as [-> ->]. split; assumption.
Qed.

(** X17.  In one resolver tick with a shield charge N >= 0 and k enemies
    that are active and overlap the player, the charge ends at max(N - k, 0)
    and the health drops by 10 for each of the max(k - N, 0) overlaps the
    shield did not cover; the ability gate and the shield image change
    neither. *)
Theorem tick_accounts_for_every_overlap delta s :
  0 <= shieldHP (gameState s) ->
  let k := hitCount overlap s (enemies s) in
  let s' := updateShieldAndCollisions overlap delta s in
  shieldHP (gameState s') = Z.max (shieldHP (gameState s) - k) 0
  /\ playerHealth (gameState s')
     = playerHealth (gameState s) - 10 * Z.max (k - shieldHP (gameState s)) 0.
Proof. apply updateShieldAndCollisions_accounting. Qed.

End Collisions.

(** The theorem above in the melee scene with a shield charge of 2 and
    three enemies on the player. *)
Lemma tick_accounts_for_every_overlap_witness :
  let s := melee 2 0 in
  let s' := updateShieldAndCollisions nearby 16 s in
  0 <= shieldHP (gameState s)
  /\ hitCount nearby s (enemies s) = 3
  /\ shieldHP (gameState s') = 0
  /\ playerHealth (gameState s') = 90.
Proof.
  intros s s'.
  assert (Hpos : 0 <= shieldHP (gameState s)) by (simpl; lia).
  destruct (tick_accounts_for_every_overlap nearby 16 s Hpos) as [Hsh Hhp].
  split; [exact Hpos |]. split; [reflexivity |].
  unfold s'. rewrite Hsh, Hhp. split; reflexivity.
Defined.

Section Survivors.

Variable overlap : Z -> Z -> Sprite -> bool.

Lemma existsb_same {A} (f g : A -> bool) (l : list A) :
  (forall a, f a = g a) -> existsb f l = existsb g l.
Proof.
  intros H. induction l as [| a l IH]; simpl; [reflexivity |]. rewrite H, IH. reflexivity.
Qed.

Lemma filter_twice {A} (f g : A -> bool) (l : list A) :
  List.filter f (List.filter g l) = List.filter (fun a => g a && f a) l.
Proof.
  induction l as [| a l IH]; simpl; [reflexivity |].
  destruct (g a); simpl; [destruct (f a) |]; rewrite IH; reflexivity.
Qed.

Lemma fold_resolveEnemy_enemies es s :
  enemies (fold_left (resolveEnemy overlap) es s)
  = List.filter (fun e' => negb (struck overlap s es e')) (enemies s).
Proof.
  revert s. induction es as [| e es IH]; intros s; simpl.
  - symmetry. apply forallb_filter_id. apply forallb_forall. reflexivity.
  - rewrite IH, resolveEnemy_enemies.
    assert (Hs : forall e', struck overlap (resolveEnemy overlap s e) es e' = struck overlap s es e').
    { intros e'. unfold struck. apply existsb_same. intros e0.
      rewrite (hits_player overlap s) by apply resolveEnemy_player. reflexivity. }
    destruct (hits overlap s e) eqn:Hhit; simpl.
    + rewrite filter_twice. apply filter_ext. intros e'. rewrite Hs, negb_orb.
      reflexivity.
    + apply filter_ext. intros e'. rewrite Hs. reflexivity.
Qed.

(** X18.  When the enemies of the group have distinct identities, the
    collision loop destroys exactly the enemies that are active and overlap
    the player: the group afterwards is the group before without them, in
    the same order, and an inactive or distant enemy is never destroyed. *)
Theorem collisions_destroy_exactly_the_overlapping s :
  NoDup (eid <$> enemies s) ->
  enemies (resolveCollisions overlap s)
  = List.filter (fun e => negb (hits overlap s e)) (enemies s).
Proof.
  intros Hnd. unfold resolveCollisions. rewrite fold_resolveEnemy_enemies.
  apply filter_ext_in. intros e' Hin. f_equal.
  apply list_elem_of_In in Hin. unfold struck.
  destruct (hits overlap s e') eqn:Hhit.
  - apply existsb_exists. exists e'. split; [apply list_elem_of_In, Hin |].
    rewrite Hhit, Nat.eqb_refl. reflexivity.
  - apply not_true_iff_false. intros Hex.
    apply existsb_exists in Hex as (e & He & Hboth).
    apply andb_true_iff in Hboth as [Hhe Hid]. apply Nat.eqb_eq in Hid.
    apply list_elem_of_In in He.
    rewrite (NoDup_fmap_elem eid (enemies s) e' e Hnd Hin He Hid) in Hhit. congruence.
Qed.

End Survivors.

Lemma collisions_destroy_exactly_the_overlapping_witness :
  let far := mkEnemy 7 true (mkSprite 900 500) in
  let asleep := mkEnemy 8 false (mkSprite 480 288) in
  let s := setEnemies (enemies (melee 0 0) ++ [far; asleep]) (melee 0 0) in
  NoDup (eid <$> enemies s)
  /\ enemies (resolveCollisions nearby s) = [far; asleep].
Proof.
  intros far asleep s.
  assert (Hnd : NoDup (eid <$> enemies s)).
  { simpl. repeat (apply NoDup_cons; split; [rewrite ?elem_of_cons, elem_of_nil; lia |]).
    apply NoDup_nil_2. }
  split; [exact Hnd |].
  rewrite (collisions_destroy_exactly_the_overlapping nearby s Hnd). reflexivity.
Defined.

Section ShieldImage.

Variable overlap : Z -> Z -> Sprite -> bool.

Lemma resolveEnemy_imageFollows sv s e :
  imageFollows sv s -> imageFollows sv (resolveEnemy overlap s e).
Proof.
  intros (Hp & Hle & Hpos & Hzero). unfold resolveEnemy.
  destruct (hits overlap s e); [| repeat split; assumption].
  destruct (Z.ltb_spec 0 (shieldHP (gameState s))) as [Hlt | Hnot]; simpl.
  - match goal with |- context [if ?b then _ else _] => destruct b eqn:Hb end; simpl.
    + apply andb_true_iff in Hb as [Hz _]. apply Z.eqb_eq in Hz. simpl in Hz.
      repeat split; simpl; try assumption; lia.
    + repeat split; simpl; try assumption; try lia.
      * intros _. apply Hpos, Hlt.
      * intros Hle0. simpl in Hb.
        replace (shieldHP (gameState s) - 1) with 0 in Hb by lia. simpl in Hb.
        apply bool_decide_eq_false in Hb.
        destruct (shieldSprite s); [exfalso; apply Hb; eauto | reflexivity].
  - destruct (playerHealth (gameState s) - 10 <=? 0); repeat split; assumption.
Qed.

(** X19.  After a resolver tick the shield image agrees with the charge:
    while the charge is positive the image sits on the orbit of radius 30
    around the player, at the phase the tick computed in doubles as the
    stored phase (or 0) plus 0.005 times delta, and the player's phase is
    that phase; once the charge is not positive there is no image. *)
Theorem shield_image_follows_charge delta s :
  let s' := updateShieldAndCollisions overlap delta s in
  (0 < shieldHP (gameState s') ->
     shieldSprite s'
     = Some (mkShieldSprite (px (player s)) (py (player s)) (Some (30, nextPhase delta s)))
     /\ shieldAngle (player s') = Some (nextPhase delta s))
  /\ (shieldHP (gameState s') <= 0 -> shieldSprite s' = None).
Proof.
  intros s'. subst s'. unfold updateShieldAndCollisions, resolveCollisions.
  set (sv := shieldVisual delta s).
  assert (Hsv : imageFollows sv sv).
  { split; [reflexivity |]. split; [lia |]. split; [reflexivity |].
    subst sv. unfold shieldVisual.
    destruct (Z.ltb_spec 0 (shieldHP (gameState s))) as [Hlt | Hnot]; simpl.
    - unfold ensureShieldSprite. destruct (shieldSprite s); simpl; intros; lia.
    - destruct (shieldSprite s) eqn:E; simpl; intros; [reflexivity | exact E]. }
  pose proof (fold_resolveEnemy_keeps overlap (imageFollows sv) (enemies sv) sv
                (fun s0 e H => resolveEnemy_imageFollows sv s0 e H) Hsv)
    as (Hp & Hle & Hpos & Hzero).
  set (sf := fold_left (resolveEnemy overlap) (enemies sv) sv) in *.
  assert (Hgate : shieldHP (gameState (abilityGate sf)) = shieldHP (gameState sf)
                  /\ shieldSprite (abilityGate sf) = shieldSprite sf
                  /\ player (abilityGate sf) = player sf).
  { unfold abilityGate, JustDown.
    match goal with |- context [if ?b then _ else _] => destruct b end; repeat split. }
  destruct Hgate as (-> & -> & ->). split; [| exact Hzero].
  intros Hcharge. rewrite (Hpos Hcharge), Hp.
  assert (Hstart : 0 < shieldHP (gameState s)).
  { assert (shieldHP (gameState sv) = shieldHP (gameState s)); [| lia].
    subst sv. unfold shieldVisual, ensureShieldSprite.
    destruct (0 <? shieldHP (gameState s)); destruct (shieldSprite s); reflexivity. }
  subst sv. unfold shieldVisual, nextPhase, ensureShieldSprite.
  destruct (Z.ltb_spec 0 (shieldHP (gameState s))) as [_ | Hnot]; [| lia].
  destruct (shieldSprite s); split; reflexivity.
Qed.

(** Once the charge is not positive after a tick, there is no image. *)
Lemma updateShieldAndCollisions_no_image delta s :
  shieldHP (gameState (updateShieldAndCollisions overlap delta s)) <= 0 ->
  shieldSprite (updateShieldAndCollisions overlap delta s) = None.
Proof.
  unfold updateShieldAndCollisions, resolveCollisions.
  set (sv := shieldVisual delta s).
  assert (Hsv : imageFollows sv sv).
  { split; [reflexivity |]. split; [lia |]. split; [reflexivity |].
    subst sv. unfold shieldVisual.
    destruct (Z.ltb_spec 0 (shieldHP (gameState s))) as [Hlt | Hnot]; simpl.
    - unfold ensureShieldSprite. destruct (shieldSprite s); simpl; intros; lia.
    - destruct (shieldSprite s) eqn:E; simpl; intros; [reflexivity | exact E]. }
  pose proof (fold_resolveEnemy_keeps overlap (imageFollows sv) (enemies sv) sv
                (fun s0 e H => resolveEnemy_imageFollows sv s0 e H) Hsv)
    as (_ & _ & _ & Hzero).
  set (sf := fold_left (resolveEnemy overlap) (enemies sv) sv) in *.
  unfold abilityGate, JustDown.
  match goal with |- context [if ?b then _ else _] => destruct b end; exact Hzero.
Qed.

End ShieldImage.

#[warnings="-inexact-float"]
Lemma shield_image_follows_charge_witness :
  let s := melee 5 0 in
  let s' := updateShieldAndCollisions nearby 35 s in
  0 < shieldHP (gameState s')
  /\ nextPhase 35 s = 0.17500000000000002%float
  /\ shieldSprite s' = Some (mkShieldSprite 480 288 (Some (30, nextPhase 35 s)))
  /\ shieldAngle (player s') = Some (nextPhase 35 s)
  /\ shieldSprite (updateShieldAndCollisions nearby 35 (melee 3 0)) = None.
Proof.
  intros s s'.
  assert (Hpos : 0 < shieldHP (gameState s')) by (vm_compute; reflexivity).
  destruct (shield_image_follows_charge nearby 35 s) as [Hon _].
  destruct (shield_image_follows_charge nearby 35 (melee 3 0)) as [_ Hoff].
  split; [exact Hpos |]. split; [vm_compute; reflexivity |].
  split; [apply (Hon Hpos) |]. split; [apply (Hon Hpos) |].
  apply Hoff. vm_compute. discriminate.
Defined.

(** ** The player's cell along a session in a room without wind *)

Lemma safeCell_cleared g row x y x' y' :
  g !! y = Some row ->
  safeCell (Some g) x' y' -> safeCell (Some (<[y := <[x := 0]> row]> g)) x' y'.
Proof.
  intros Hrow Hsafe. pose proof (passable_true_inBounds _ _ _ Hsafe) as Hin.
  unfold safeCell, passable in *. rewrite (tileAt_cleared g row x y) by exact Hrow.
  destruct (bool_decide (x' = x /\ y' = y)); [| exact Hsafe].
  rewrite Hin. reflexivity.
Qed.

Lemma windFree_cleared g row x y :
  g !! y = Some row ->
  windFree (Some g) -> windFree (Some (<[y := <[x := 0]> row]> g)).
Proof.
  intros Hrow Hfree x' y' t. rewrite (tileAt_cleared g row x y) by exact Hrow.
  destruct (bool_decide (x' = x /\ y' = y)); [| apply Hfree].
  intros [= <-]. split; discriminate.
Qed.

Lemma onSafeGround_offWind s : onSafeGround s -> offWind s.
Proof.
  intros (_ & Hfree & Hsafe & _). unfold safeCell, passable in Hsafe.
  destruct (tileAt (dungeonGrid s) (gridX (player s)) (gridY (player s)))
    as [tile |] eqn:Htile; [| discriminate].
  exists tile. split; [exact Htile |].
  destruct tile as [t |]; [| split; reflexivity].
  destruct (Hfree _ _ _ Htile) as [H9 H10].
  split; apply Z.eqb_neq; assumption.
Qed.

Section Session.

Variable overlap : Z -> Z -> Sprite -> bool.

Lemma update_onSafeGround time delta s :
  onSafeGround s -> onSafeGround (snd (updatePlayer overlap time delta s)).
Proof.
  intros Hs. pose proof (onSafeGround_offWind s Hs) as (tile & Htile & H9 & H10).
  destruct Hs as (Hgrid & Hfree & Hsafe & Htws).
  set (s' := snd (updatePlayer overlap time delta s)).
  assert (Hrest : restingParts s' = restingParts s) by apply updatePlayer_restingParts.
  unfold restingParts in Hrest.
  injection Hrest as Hx Hy _ _ Hg _ _ _ _ _ _.
  unfold onSafeGround. rewrite Hg, Hx, Hy.
  refine (conj Hgrid (conj Hfree (conj Hsafe _))).
  intros tw Hin.
  assert (Hsplit : tw ∈ tweens s \/ tw ∈ initiated s s').
  { destruct (updatePlayer_moves overlap time delta s) as [[HT _] | (_ & tw1 & HT & _)];
      fold s' in HT.
    - left. rewrite <- HT. exact Hin.
    - rewrite HT in Hin. apply elem_of_app in Hin as [Hin | Hin]; [left; exact Hin |].
      right. unfold initiated. rewrite HT, drop_app_length. exact Hin. }
  destruct Hsplit as [Hold | Hnew]; [apply Htws, Hold |].
  unfold s' in Hnew. rewrite updatePlayer_initiated in Hnew.
  destruct (onCooldown time (primed s)); [inversion Hnew |].
  destruct (dungeonGrid s) eqn:Hgs; [| inversion Hnew].
  pose proof (movement_off_wind_is_checked time (primed s) tile) as Hchk.
  rewrite readTile_tileAt in Hchk. simpl in Hchk. rewrite Hgs in Hchk.
  specialize (Hchk Htile H9 H10 tw Hnew).
  rewrite canMove_passable in Hchk. simpl in Hchk. rewrite Hgs in Hchk. exact Hchk.
Qed.

Lemma completeTween_onSafeGround s :
  onSafeGround s -> onSafeGround (snd (completeTween s)).
Proof.
  intros (Hgrid & Hfree & Hsafe & Htws).
  unfold completeTween, onComplete, bind, gets, modify. simpl.
  destruct (tweens s) as [| tw rest] eqn:Htw; simpl.
  - unfold onSafeGround. rewrite Htw. auto.
  - set (x := destGridX tw). set (y := destGridY tw).
    set (s1 := withPlayer (commitCell x y) (setTweens rest s)).
    set (P := fun s0 : Scene => tweens s0 = rest /\ player s0 = player s1).
    assert (HP : arrivalBlind P) by (constructor; intros; assumption).
    assert (Hw : preserves P (writeTile x y 0))
      by (apply writeTile_gridBlind; intros; assumption).
    pose proof (handleTileInteraction_arrivalBlind P x y HP Hw s1 (conj eq_refl eq_refl))
      as [Ht Hp].
    pose proof (handleTileInteraction_grid s1 x y) as Hg.
    assert (Hfinal : onSafeGround (snd (handleTileInteraction x y s1))).
    { unfold onSafeGround. rewrite Ht, Hp. simpl.
      assert (Hdest : safeCell (dungeonGrid s) x y) by (apply Htws; left).
      assert (Hrest : forall tw', tw' ∈ rest ->
                 safeCell (dungeonGrid s) (destGridX tw') (destGridY tw'))
        by (intros tw' Hin; apply Htws; right; exact Hin).
      destruct Hg as [-> | (g & row & t & Hgs & Hrow & _ & _ & ->)].
      - simpl. auto.
      - simpl in Hgs. rewrite Hgs in *.
        refine (conj (ex_intro _ _ eq_refl) (conj _ (conj _ _))).
        + apply windFree_cleared; assumption.
        + apply safeCell_cleared; assumption.
        + intros tw' Hin. apply safeCell_cleared; [assumption | apply Hrest, Hin]. }
    destruct (handleTileInteraction x y s1) as [[[] | e] s2]; exact Hfinal.
Qed.

(** X20.  In a room without wind tiles, from a scene in which the player's
    cell and the destinations of the pending tweens pass the passability
    predicate, every scene a session reaches (through updates, tween
    completions and changes of the input, the enemies, the projectiles and
    the charge) has the player on a cell that passes the predicate: inside
    the bounds and not collidable. *)
Theorem player_stays_on_passable_cells s0 s :
  onSafeGround s0 -> reachable overlap s0 s ->
  onSafeGround s
  /\ fst (canMove (gridX (player s)) (gridY (player s)) s) = Normal true
  /\ inBounds (gridX (player s)) (gridY (player s)) = true.
Proof.
  intros H0 Hrun.
  assert (Hs : onSafeGround s).
  { induction Hrun as [| s1 s2 s3 Hstep _ IH]; [exact H0 |].
    apply IH. destruct Hstep; try exact H0.
    - apply update_onSafeGround, H0.
    - apply completeTween_onSafeGround, H0. }
  split; [exact Hs |]. destruct Hs as (_ & _ & Hsafe & _).
  rewrite canMove_passable. split; [exact Hsafe |].
  apply (passable_true_inBounds _ _ _ Hsafe).
Qed.

End Session.

Lemma openRoom_tiles x y t :
  tileAt (Some (gridOf openRoom)) x y = Normal (Some t) -> t = 0.
Proof.
  unfold tileAt. rewrite gridOf_row.
  destruct (0 <=? y); [| discriminate].
  destruct (openRoom !! Z.to_nat y) as [r |] eqn:Hr; [| discriminate]. simpl.
  apply list_elem_of_lookup_2, elem_of_replicate in Hr as [-> _].
  rewrite arrayOf_lookup. destruct (0 <=? x); [| discriminate].
  intros [= Ht]. apply list_elem_of_lookup_2, elem_of_replicate in Ht as [-> _].
  reflexivity.
Qed.

(** The theorem above for the open room: the scene after setup is on safe
    ground, and so is the scene after a move to the right. *)
Lemma player_stays_on_passable_cells_witness :
  let s0 := sceneIn openRoom in
  let s := snd (completeTween (snd (updatePlayer nearby 200 16 (setCursors holdRight s0)))) in
  onSafeGround s0
  /\ reachable nearby s0 s
  /\ (gridX (player s), gridY (player s)) = (11, 6)
  /\ fst (canMove (gridX (player s)) (gridY (player s)) s) = Normal true.
Proof.
  intros s0 s.
  assert (H0 : onSafeGround s0).
  { refine (conj (ex_intro _ _ eq_refl) (conj _ (conj _ _))).
    - intros x y t Ht. apply openRoom_tiles in Ht. subst t. split; discriminate.
    - vm_compute. reflexivity.
    - intros tw Hin. inversion Hin. }
  assert (Hrun : reachable nearby s0 s).
  { eapply rtc_l; [apply (step_cursors nearby holdRight) |].
    eapply rtc_l; [apply (step_update nearby 200 16) |].
    eapply rtc_l; [apply step_tween |]. apply rtc_refl. }
  destruct (player_stays_on_passable_cells nearby s0 s H0 Hrun) as (_ & Hsafe & _).
  split; [exact H0 |]. split; [exact Hrun |]. split; [reflexivity | exact Hsafe].
Defined.

(** ** The wind push on its own *)

Lemma movement_wind_only time s tile :
  cursors s = noInput ->
  tileAt (dungeonGrid s) (gridX (player s)) (gridY (player s)) = Normal tile ->
  fst (movement time s) = Normal tt
  /\ dest <$> initiated s (snd (movement time s)) = option_list (windCell s tile).
Proof.
  intros Hc Htile.
  destruct s as [c ? ? ? ? ? ? ? ? ? ? ? ? ? ? ?]. simpl in Hc. subst c.
  unfold windCell. simpl in *.
  assert (Hrow : forall x, tileAt dungeonGrid0 x (gridY player0) <> Throw TypeError).
  { intros x. unfold tileAt in *. destruct dungeonGrid0 as [g |]; [| discriminate].
    destruct (g !! gridY player0); discriminate. }
  unfold initiated, movement, windPush, bind, gets, modify, ret, setPlayerVelocity.
  simpl. rewrite readTile_tileAt. simpl. rewrite Htile. simpl.
  run_movement;
    try match goal with
        | E : passable _ ?x _ = Throw ?e |- _ =>
            exfalso; unfold passable in E; specialize (Hrow x);
            destruct (tileAt _ x _); [discriminate E | destruct e, e0; congruence]
        | E : tileAt _ ?x _ = Throw ?e |- _ =>
            exfalso; destruct e; apply (Hrow x E)
        end;
    rewrite ?drop_all, ?drop_app_length; simpl; split; reflexivity.
Qed.

(** X21.  With no direction key held, on an update past the cooldown, a
    player on the wind tile 9 is pushed one cell to the right and a player
    on the wind tile 10 one cell to the left, when that cell passes the
    passability predicate; a blocked push starts no tween, and the update
    completes in either case. *)
Theorem wind_alone_pushes_one_checked_cell overlap time delta s tile :
  cursors s = noInput ->
  onCooldown time (primed s) = false ->
  tileAt (dungeonGrid s) (gridX (player s)) (gridY (player s)) = Normal tile ->
  fst (updatePlayer overlap time delta s) = Normal tt
  /\ dest <$> initiated s (snd (updatePlayer overlap time delta s))
     = option_list (windCell s tile).
Proof.
  intros Hc Hcool Htile.
  rewrite updatePlayer_fst, updatePlayer_initiated, Hcool.
  destruct (dungeonGrid s) eqn:Hg; [| discriminate Htile].
  assert (Htile' : tileAt (dungeonGrid (primed s)) (gridX (player (primed s)))
                     (gridY (player (primed s))) = Normal tile)
    by (simpl; rewrite Hg; exact Htile).
  exact (movement_wind_only time (primed s) tile Hc Htile').
Qed.

Lemma wind_alone_pushes_one_checked_cell_witness :
  let s := standingAt 11 6 noInput corridorRoom in
  cursors s = noInput
  /\ tileAt (dungeonGrid s) 11 6 = Normal (Some 9)
  /\ fst (updatePlayer nearby 200 16 s) = Normal tt
  /\ dest <$> initiated s (snd (updatePlayer nearby 200 16 s)) = [(12, 6)].
Proof.
  intros s.
  assert (Htile : tileAt (dungeonGrid s) (gridX (player s)) (gridY (player s))
                  = Normal (Some 9)) by (vm_compute; reflexivity).
  destruct (wind_alone_pushes_one_checked_cell nearby 200 16 s (Some 9)
              eq_refl eq_refl Htile) as [Hrun Hdest].
  split; [reflexivity |]. split; [exact Htile |]. split; [exact Hrun |].
  rewrite Hdest. vm_compute. reflexivity.
Defined.

(** ** What a session never undoes *)

Lemma neverUndone_refl s : neverUndone s s.
Proof.
  unfold neverUndone. refine (conj _ (conj _ (conj _ (conj _ _)))); auto. lia.
Qed.

Lemma neverUndone_trans s1 s2 s3 :
  neverUndone s1 s2 -> neverUndone s2 s3 -> neverUndone s1 s3.
Proof.
  intros (Ha & Hb & Hc & Hd & He) (Ha' & Hb' & Hc' & Hd' & He').
  unfold neverUndone. refine (conj _ (conj _ (conj _ (conj _ _)))); auto. lia.
Qed.

Lemma applyPowerUp_score tile x y s :
  score (gameState (snd (applyPowerUp tile x y s))) = score (gameState s).
Proof.
  set (P := fun s' : Scene => score (gameState s') = score (gameState s)).
  assert (Hp : preserves P (applyPowerUp tile x y)); [| exact (Hp s eq_refl)].
  unfold applyPowerUp.
  apply preserves_bind; [apply preserves_writeTile; intros s' g H; exact H | intros _].
  apply preserves_bind; [apply preserves_clearDungeonText; intros s' t H; exact H | intros _].
  apply preserves_bind;
    [apply preserves_removePowerUpSprite; intros s' l H; exact H | intros _].
  js_steps; apply preserves_modify; intros s' H; try exact H.
  unfold ensureShieldSprite. destruct (shieldSprite s'); exact H.
Qed.

Lemma handleTileInteraction_score x y s :
  score (gameState s) <= score (gameState (snd (handleTileInteraction x y s))).
Proof.
  unfold handleTileInteraction, bind. rewrite readTile_tileAt.
  destruct (tileAt (dungeonGrid s) x y) as [tile | e]; [| simpl; lia].
  destruct (tileIs tile 5 || tileIs tile 8).
  - unfold checkOver, bind, modify, gets. simpl.
    destruct (playerHealth (gameState s) - 20 <=? 0); simpl; lia.
  - destruct (tileIs tile 6).
    + set (s1 := withGameState (fun g => setScore (score g + 50) g) s).
      set (P := fun s' : Scene => score (gameState s') = score (gameState s) + 50).
      assert (Hp : preserves P
                (writeTile x y 0 ;;; clearDungeonText (y * GRID_WIDTH + x) ;;;
                 p <- gets player ;;
                 modify (addText (mkFloatingText (px p) (py p - 20) "+50 Score!" 500)))%js).
      { apply preserves_bind; [apply preserves_writeTile; intros s' g H; exact H | intros _].
        apply preserves_bind;
          [apply preserves_clearDungeonText; intros s' t H; exact H | intros _].
        js_steps. apply preserves_modify. intros s' H. exact H. }
      specialize (Hp s1 eq_refl). unfold modify at 1. simpl.
      fold s1. unfold P in Hp.
      match goal with |- _ <= ?r =>
        assert (Hr : r = score (gameState s) + 50) by exact Hp; rewrite Hr; lia
      end.
    + destruct (isPowerUp tile); [rewrite applyPowerUp_score | simpl]; lia.
Qed.

Lemma completeTween_score s :
  score (gameState s) <= score (gameState (snd (completeTween s))).
Proof.
  unfold completeTween, onComplete, bind, gets, modify. simpl.
  destruct (tweens s) as [| tw rest]; simpl; [lia |].
  set (s1 := withPlayer (commitCell (destGridX tw) (destGridY tw)) (setTweens rest s)).
  pose proof (handleTileInteraction_score (destGridX tw) (destGridY tw) s1) as H.
  destruct (handleTileInteraction (destGridX tw) (destGridY tw) s1) as [[[] | e] s2];
    exact H.
Qed.

Section Undo.

Variable overlap : Z -> Z -> Sprite -> bool.

Lemma step_neverUndone s s' : step overlap s s' -> neverUndone s s'.
Proof.
  intros Hstep. destruct Hstep.
  3-7: unfold neverUndone; refine (conj _ (conj _ (conj _ (conj _ _))));
       simpl; first [lia | intros H; exact H].
  - pose proof (updatePlayer_restingParts overlap time delta s) as Hrest.
    unfold restingParts in Hrest. injection Hrest as _ _ _ _ _ _ _ Hscore _ _ _.
    destruct (updatePlayer_key_flag overlap time delta s) as [Hflag Hkey].
    unfold neverUndone. refine (conj _ (conj Hflag (conj _ (conj _ _)))).
    + apply (preserves_updatePlayer overlap isOver time delta); auto using
        isOver_movementBlind, isOver_pickupBlind, isOver_resolverBlind.
    + intros H. apply (Hkey H).
    + rewrite Hscore. lia.
    + apply updatePlayer_healthy.
  - pose proof (completeTween_bystanders s) as Hby.
    unfold bystanders in Hby. injection Hby as _ _ _ _ Hkey _ _ Hflag _ _ _.
    unfold neverUndone. refine (conj _ (conj _ (conj _ (conj _ _)))).
    + apply (preserves_completeTween isOver isOver_tileBlind).
    + rewrite Hflag. auto.
    + rewrite Hkey. auto.
    + apply completeTween_score.
    + apply completeTween_healthy.
Qed.

(** X22.  Along every session the over-state, once set, stays set; the key
    flag, once set, stays set; a picked-up key does not come back; the
    score never decreases; and a stored health of at most 100, with the
    over-state set whenever it is not positive, stays so. *)
Theorem session_never_undoes s0 s :
  reachable overlap s0 s -> neverUndone s0 s.
Proof.
  intros Hrun. induction Hrun as [| s1 s2 s3 Hstep _ IH]; [apply neverUndone_refl |].
  apply (neverUndone_trans s1 s2 s3); [apply step_neverUndone, Hstep | exact IH].
Qed.

End Undo.

Lemma session_never_undoes_witness :
  let s0 := spikeStart 15 in
  let s := snd (completeTween (snd (updatePlayer nearby 200 16 s0))) in
  reachable nearby s0 s
  /\ healthy s0
  /\ healthy s
  /\ playerHealth (gameState s) = -5
  /\ gameOver s = true.
Proof.
  intros s0 s.
  assert (Hrun : reachable nearby s0 s).
  { eapply rtc_l; [apply (step_update nearby 200 16) |].
    eapply rtc_l; [apply step_tween |]. apply rtc_refl. }
  assert (H0 : healthy s0) by (split; simpl; [lia | intros H; exfalso; simpl in H; lia]).
  destruct (session_never_undoes nearby s0 s Hrun) as (_ & _ & _ & _ & Hh).
  split; [exact Hrun |]. split; [exact H0 |]. split; [apply Hh, H0 |].
  split; reflexivity.
Defined.

(** ** Shield, over-state and ability on updates that get to the resolver *)

Section Reaching.

Variable overlap : Z -> Z -> Sprite -> bool.

Lemma reaches_result time delta s :
  reaches overlap time delta s ->
  snd (updatePlayer overlap time delta s)
  = updateShieldAndCollisions overlap delta (beforeResolver overlap time s).
Proof.
  intros (Hcool & Hgrid & Hrun). unfold beforeResolver.
  rewrite updatePlayer_fst, Hcool in Hrun. destruct Hgrid as [g Hg]. rewrite Hg in Hrun.
  destruct (movement time (primed s)) as [c sm] eqn:Hm. simpl in Hrun. subst c.
  apply (updatePlayer_reaches overlap time delta s sm Hcool (ex_intro _ g Hg) Hm).
Qed.

Lemma beforeResolver_fightAs time s : fightAs s (beforeResolver overlap time s).
Proof.
  unfold beforeResolver.
  assert (Hm : movementBlind (fightAs s))
    by (constructor; [intros s' v H | intros s' tw H | intros s' t H]; exact H).
  assert (Hk : pickupBlind (fightAs s)) by (constructor; intros; assumption).
  apply (keyPickup_blind overlap _ _ Hk).
  apply (preserves_movement (fightAs s) time Hm (primed s)).
  destruct s as [? ? [[t |] ? ? ? ? ? ? ? ?] ? ? ? ? ? ? ? ? ? ? ? ? ?]; repeat split.
Qed.

Lemma fightAs_hitCount s sk :
  fightAs s sk -> hitCount overlap sk (enemies sk) = hitCount overlap s (enemies s).
Proof.
  intros (He & Hx & Hy & _). rewrite He. unfold hitCount. f_equal. f_equal.
  apply filter_ext. intros e. unfold hits, playerOverlaps. rewrite Hx, Hy. reflexivity.
Qed.



(** The resolver, run on a scene that agrees with [s] on what it reads,
    absorbs the overlaps of [s]. *)
Lemma tick_absorbs delta s sk :
  fightAs s sk -> 0 <= shieldHP (gameState s) ->
  absorbed overlap s (updateShieldAndCollisions overlap delta sk).
Proof.
  intros Hf Hpos. pose proof (fightAs_hitCount s sk Hf) as Hk.
  destruct Hf as (He & Hx & Hy & Hsh & Hhp & _).
  destruct (updateShieldAndCollisions_accounting overlap delta sk ltac:(lia)) as [Ash Ahp].
  rewrite Hk, Hsh in Ash. rewrite Hk, Hsh, Hhp in Ahp.
  refine (conj Ash (conj Ahp (conj _ _))).
  - destruct (updateShieldAndCollisions_ran overlap delta s sk) as [Hgone _];
      [repeat split; assumption | exact Hgone].
  - intros Hused. apply updateShieldAndCollisions_no_image. rewrite Ash. lia.
Qed.


(** C5 (as amended).  Once the over-state is set, every update, tween
    completion and tile arrival leaves it set.  Nothing in these functions
    tests the over-state.  In it, an update that gets to the resolver still
    resolves the overlaps (10 health for each one the shield charge, not
    negative, does not cover, the enemies destroyed), an update past the
    cooldown, off the wind tiles and with the grid rows around the player
    present, still completes and starts the tween the held keys select, the
    arrival on a hazard tile still takes 20 health and an overlap without
    shield charge 10. *)
Theorem over_state_is_kept_not_frozen s :
  isOver s ->
  (forall time delta, isOver (snd (updatePlayer overlap time delta s)))
  /\ isOver (snd (completeTween s))
  /\ (forall x y, isOver (snd (handleTileInteraction x y s)))
  /\ (forall x y tile,
         fst (readTile x y s) = Normal tile ->
         tileIs tile 5 || tileIs tile 8 = true ->
         playerHealth (gameState (snd (handleTileInteraction x y s)))
         = playerHealth (gameState s) - 20)
  /\ (forall e,
         hits overlap s e = true -> shieldHP (gameState s) <= 0 ->
         playerHealth (gameState (resolveEnemy overlap s e))
         = playerHealth (gameState s) - 10)
  /\ (forall time delta,
         reaches overlap time delta s -> 0 <= shieldHP (gameState s) ->
         absorbed overlap s (snd (updatePlayer overlap time delta s)))
  /\ (forall time delta,
         onCooldown time (primed s) = false -> offWind s -> rowsAround s ->
         fst (updatePlayer overlap time delta s) = Normal tt
         /\ dest <$> initiated s (snd (updatePlayer overlap time delta s))
            = option_list (keyedCell s)).
Proof.
  intros Hover. refine (conj _ (conj _ (conj _ (conj _ (conj _ (conj _ _)))))).
  - intros time delta.
    apply (preserves_updatePlayer overlap isOver time delta); auto using
      isOver_movementBlind, isOver_pickupBlind, isOver_resolverBlind.
  - apply preserves_completeTween; [apply isOver_tileBlind | exact Hover].
  - intros x y. apply preserves_handleTileInteraction; [apply isOver_tileBlind | exact Hover].
  - intros x y tile. apply hazard_costs_20.
  - intros e. apply unshielded_overlap_costs_10.
  - intros time delta Hreach Hpos. rewrite (reaches_result time delta s Hreach).
    apply tick_absorbs; [apply beforeResolver_fightAs | exact Hpos].
  - intros time delta Hcool Hoff Hrows.
    rewrite updatePlayer_fst, updatePlayer_initiated, Hcool.
    destruct Hrows as (g & Hg & Hrows). rewrite Hg.
    apply (movement_follows_keys time (primed s)); [exact Hoff |].
    exists g. split; [exact Hg | exact Hrows].
Qed.



End Reaching.



(** The theorem above after the arrival on the spike with 15 health, with an
    enemy on the player and the right key still held: the update at 400 ms
    takes 10 more health, destroys the enemy and starts a tween to (12,6). *)
Lemma over_state_is_kept_not_frozen_witness :
  let s := setEnemies [enemyAt 1 528 288] (spikeArrival 15) in
  let u := snd (updatePlayer nearby 400 16 s) in
  isOver s
  /\ playerHealth (gameState s) = -5
  /\ reaches nearby 400 16 s
  /\ isOver u
  /\ playerHealth (gameState u) = -15
  /\ gone (enemyAt 1 528 288) u
  /\ dest <$> initiated s u = [(12, 6)]
  /\ playerHealth (gameState (snd (handleTileInteraction 11 6 s))) = -25.
Proof.
  intros s u.
  assert (Hover : isOver s) by (vm_compute; reflexivity).
  assert (Hreach : reaches nearby 400 16 s)
    by (split; [vm_compute; reflexivity
               | split; [eexists; vm_compute; reflexivity | vm_compute; reflexivity]]).
  assert (Hoff : offWind s).
  { exists (Some 5). split; [vm_compute; reflexivity | split; reflexivity]. }
  assert (Hrows : rowsAround s).
  { eexists. split; [vm_compute; reflexivity |].
    repeat split; eexists; vm_compute; reflexivity. }
  destruct (over_state_is_kept_not_frozen nearby s Hover)
    as (Hupd & _ & _ & Hhaz & _ & Habs & Hkeys).
  destruct (Habs 400 16%float Hreach ltac:(vm_compute; discriminate)) as (_ & Hhp & Hgone & _).
  destruct (Hkeys 400 16%float (proj1 Hreach) Hoff Hrows) as [_ Hdest].
  refine (conj Hover (conj eq_refl (conj Hreach (conj (Hupd _ _) (conj _ (conj _
            (conj _ _))))))).
  - unfold u. rewrite Hhp. vm_compute. reflexivity.
  - apply Hgone; [apply list_elem_of_here | vm_compute; reflexivity].
  - unfold u. rewrite Hdest. vm_compute. reflexivity.
  - rewrite (Hhaz 11 6 (Some 5)); vm_compute; reflexivity.
Defined.


